(** * cloud-provider-openstack: Keystone sync configuration and Manila share
      back-end utilities

    A shallow embedding of

    - the sync configuration of package [keystone] ([syncConfig],
      [validate], [formatNamespaceName], [newSyncConfig],
      [newSyncConfigFromFile]), and
    - [pkg/share/manila/sharebackends/util.go] ([getSecretName],
      [splitExportLocation], [createSecret], [deleteSecret],
      [grantAccessCephx]),

    together with the properties the design document states about them.

    Go strings are byte strings: they are embedded as [string], whose
    characters are the bytes, so [String.length] is Go's [len]. *)

From Stdlib Require Import ZArith Lia Bool Ascii.
From stdpp Require Import gmap strings list pretty.
From Equations Require Import Equations.

Local Open Scope stdpp_scope.

(** ** The Go [strings] package, as far as the sources use it *)

Module strings.

(** [strings.HasPrefix(s, prefix)]. *)
Fixpoint HasPrefix (s prefix : string) {struct prefix} : bool :=
  match prefix, s with
  | EmptyString, _ => true
  | String p prefix', String c s' => Ascii.eqb p c && HasPrefix s' prefix'
  | String _ _, EmptyString => false
  end.

(** [strings.Contains(s, substr)]: some suffix of [s] starts with
    [substr]. *)
Fixpoint Contains (s substr : string) : bool :=
  HasPrefix s substr ||
  match s with
  | EmptyString => false
  | String _ s' => Contains s' substr
  end.

(** The scan of [strings.Replace(s, old, new, -1)] for a non-empty [old]:
    the occurrences of [old] are found from left to right, each search
    starting right after the previous occurrence, and every one is
    replaced by [new].  [skip] counts the bytes of the occurrence just
    replaced that are still to be stepped over. *)
Fixpoint replaceFrom (skip : nat) (s old new : string) : string :=
  match s with
  | EmptyString => EmptyString
  | String c s' =>
      match skip with
      | S k => replaceFrom k s' old new
      | O =>
          if HasPrefix s old
          then new +:+ replaceFrom (String.length old - 1) s' old new
          else String c (replaceFrom 0 s' old new)
      end
  end.

(** [strings.Replace(s, old, new, -1)], for the non-empty patterns the
    sources pass.  (For an empty [old] the library inserts [new] at every
    rune boundary; no caller reaches that, and it is left [s] here.) *)
Definition Replace (s old new : string) : string :=
  match old with
  | EmptyString => s
  | String _ _ => replaceFrom 0 s old new
  end.

(** [strings.Join(elems, sep)]. *)
Fixpoint Join (elems : list string) (sep : string) : string :=
  match elems with
  | [] => ""
  | [e] => e
  | e :: rest => e +:+ sep +:+ Join rest sep
  end.

(** [strings.LastIndexByte(s, c)]: the index of the last byte equal to [c],
    or [-1]. *)
Fixpoint LastIndexByte (s : string) (c : ascii) : Z :=
  match s with
  | EmptyString => (-1)%Z
  | String x s' =>
      let i := LastIndexByte s' c in
      if (0 <=? i)%Z then (i + 1)%Z
      else if Ascii.eqb x c then 0%Z else (-1)%Z
  end.

(** The slice expressions [s[:n]] and [s[n:]] (for [0 <= n <= len(s)],
    which is what the callers guarantee). *)
Fixpoint sliceTo (s : string) (n : nat) {struct n} : string :=
  match n, s with
  | S n', String c s' => String c (sliceTo s' n')
  | _, _ => EmptyString
  end.

Fixpoint sliceFrom (s : string) (n : nat) {struct n} : string :=
  match n, s with
  | S n', String _ s' => sliceFrom s' n'
  | _, _ => s
  end.

End strings.

(** ** Go [error] values and [glog] records *)

(** Reasons carried by the errors of the Kubernetes API machinery. *)
Inductive StatusReason : Type :=
| StatusReasonAlreadyExists
| StatusReasonNotFound
| StatusReasonUnknown.

(** An [error] is a value with a dynamic type and a message.  The dynamic
    types that reach the embedded code are listed: the message-only error of
    [fmt.Errorf] and [errors.New], the HTTP error of the OpenStack client,
    the status error of the Kubernetes client, the path error of a file
    read and the type error of the YAML decoder. *)
Inductive error : Type :=
| errorString (s : string)
| ErrUnexpectedResponseCode (code : nat) (body : string)
| StatusError (reason : StatusReason) (message : string)
| PathError (op path msg : string)
| TypeError (errors : list string).

(** The [Error()] method. *)
Definition Error (e : error) : string :=
  match e with
  | errorString s => s
  | ErrUnexpectedResponseCode code body =>
      "Expected HTTP response code; got " +:+ pretty code +:+ " instead: " +:+ body
  | StatusError _ message => message
  | PathError op path msg => op +:+ " " +:+ path +:+ ": " +:+ msg
  | TypeError errors =>
      "yaml: unmarshal errors:" +:+ String "010" "  " +:+ strings.Join errors (String "010" "  ")
  end.

Module fmt.
(** [fmt.Errorf] once its verbs are expanded into [msg]. *)
Definition Errorf (msg : string) : error := errorString msg.
End fmt.

Module glog.

Inductive severity : Type := INFO | WARNING | ERROR | FATAL.

Record entry : Type := Entry { level : severity; text : string }.

(** A computation that writes log records: its value and the records, in
    the order written. *)
Definition Logged (A : Type) : Type := A * list entry.

Definition Warningf (msg : string) : Logged unit := (tt, [Entry WARNING msg]).
Definition Errorf (msg : string) : Logged unit := (tt, [Entry ERROR msg]).

End glog.

(** ** The Go [regexp] package: regular expressions and full matches *)

Module regexp.

(** Character classes are unions of inclusive byte ranges, as written
    between brackets. *)
Definition class : Type := list (ascii * ascii).

Definition inRange (c : ascii) (r : ascii * ascii) : bool :=
  (nat_of_ascii (fst r) <=? nat_of_ascii c) && (nat_of_ascii c <=? nat_of_ascii (snd r)).

Definition inClass (cl : class) (c : ascii) : bool := existsb (inRange c) cl.

Inductive Regexp : Type :=
| NoMatch
| EmptyMatch
| CharClass (cl : class)
| Concat (r1 r2 : Regexp)
| Alternate (r1 r2 : Regexp)
| Star (r : Regexp).

(** The language of an expression. *)
Inductive matches : Regexp -> string -> Prop :=
| m_empty : matches EmptyMatch ""
| m_class cl c : inClass cl c = true -> matches (CharClass cl) (String c "")
| m_concat r1 r2 s1 s2 :
    matches r1 s1 -> matches r2 s2 -> matches (Concat r1 r2) (s1 +:+ s2)
| m_alt_l r1 r2 s : matches r1 s -> matches (Alternate r1 r2) s
| m_alt_r r1 r2 s : matches r2 s -> matches (Alternate r1 r2) s
| m_star_nil r : matches (Star r) ""
| m_star_cons r s1 s2 :
    matches r s1 -> matches (Star r) s2 -> matches (Star r) (s1 +:+ s2).

(** The matcher: derivatives, byte by byte. *)
Fixpoint nullable (r : Regexp) : bool :=
  match r with
  | NoMatch => false
  | EmptyMatch => true
  | CharClass _ => false
  | Concat r1 r2 => nullable r1 && nullable r2
  | Alternate r1 r2 => nullable r1 || nullable r2
  | Star _ => true
  end.

Fixpoint derive (c : ascii) (r : Regexp) : Regexp :=
  match r with
  | NoMatch => NoMatch
  | EmptyMatch => NoMatch
  | CharClass cl => if inClass cl c then EmptyMatch else NoMatch
  | Concat r1 r2 =>
      if nullable r1
      then Alternate (Concat (derive c r1) r2) (derive c r2)
      else Concat (derive c r1) r2
  | Alternate r1 r2 => Alternate (derive c r1) (derive c r2)
  | Star r1 => Concat (derive c r1) (Star r1)
  end.

(** [re.MatchString(s)] for an expression anchored at both ends
    ([^...$]): the whole of [s] has to match. *)
Fixpoint MatchString (re : Regexp) (s : string) : bool :=
  match s with
  | EmptyString => nullable re
  | String c s' => MatchString (derive c re) s'
  end.

End regexp.

(** ** A parsed YAML document *)

Module yaml.

(** Modelled from the spec: the YAML library ([gopkg.in/yaml.v2]) is not
    part of the sources.  The configuration source is a structured
    document with optional fields, each a string or a sequence of
    strings; a parsed document is the list of its top-level fields in
    document order. *)
Inductive value : Type :=
| Scalar (s : string)
| Sequence (items : list string).

Definition document : Type := list (string * value).

End yaml.

(** ** Package [keystone]: the sync configuration *)

Module keystone.

(** By now only project syncing is supported. *)
Definition allowedDataTypesToSync : list string := ["projects"].

Record syncConfig : Type := {
  DataTypesToSync : list string;
  NamespaceFormat : string;
  ProjectBlackList : list string
}.

(** The compiled pattern [^[a-zA-Z0-9][a-zA-Z0-9_.-]*[a-zA-Z0-9]$]. *)
Definition alnum : regexp.class := [("a", "z"); ("A", "Z"); ("0", "9")]%char.
Definition inner : regexp.class :=
  [("a", "z"); ("A", "Z"); ("0", "9"); ("_", "_"); (".", "."); ("-", "-")]%char.

Definition re : regexp.Regexp :=
  regexp.Concat (regexp.CharClass alnum)
    (regexp.Concat (regexp.Star (regexp.CharClass inner)) (regexp.CharClass alnum)).

(** The inner loop of [validate]: is [dt] one of the allowed values? *)
Fixpoint flag (allowed : list string) (dt : string) : bool :=
  match allowed with
  | [] => false
  | a :: allowed' => if String.eqb a dt then true else flag allowed' dt
  end.

Definition unsupportedDataType (dt : string) : error :=
  fmt.Errorf ("Unsupported data type to sync: " +:+ dt +:+ ". Available values: "
              +:+ strings.Join allowedDataTypesToSync ",").

(** The outer loop of [validate]: the first data type that is not allowed
    is reported. *)
Fixpoint checkDataTypes (dts : list string) : option error :=
  match dts with
  | [] => None
  | dt :: dts' =>
      if negb (flag allowedDataTypesToSync dt)
      then Some (unsupportedDataType dt)
      else checkDataTypes dts'
  end.

(** The test string of [validate]. *)
Definition testString (format : string) : string :=
  let ts := strings.Replace format "%i" "aa" in
  let ts := strings.Replace ts "%n" "aa" in
  strings.Replace ts "%d" "aa".

Definition errNoProjectID : error :=
  fmt.Errorf "format string should comprise a %i substring (keystone project id)".

Definition errBadName : error :=
  fmt.Errorf "namespace name must consist of alphanumeric characters, '-', '_' or '.', and must start and end with an alphanumeric character".

(** [validate]: [None] is Go's [nil] error. *)
Definition validate (sc : syncConfig) : option error :=
  if negb (strings.Contains (NamespaceFormat sc) "%i") then Some errNoProjectID
  else
    let ts := testString (NamespaceFormat sc) in
    if negb (regexp.MatchString re ts) then Some errBadName
    else checkDataTypes (DataTypesToSync sc).

Definition lengthWarning (res id : string) : string :=
  "Generated namespace name '" +:+ res +:+
  "' exceeds the maximum possible length of 63 characters. Just Keystone project id '"
  +:+ id +:+ "' will be used as the namespace name.".

(** The local [res] of [formatNamespaceName]: three passes, each over the
    result of the one before. *)
Definition substituted (sc : syncConfig) (id name domain : string) : string :=
  let res := strings.Replace (NamespaceFormat sc) "%i" id in
  let res := strings.Replace res "%n" name in
  strings.Replace res "%d" domain.

(** [formatNamespaceName] generates a namespace name, based on the format
    string. *)
Definition formatNamespaceName (sc : syncConfig) (id name domain : string)
  : glog.Logged string :=
  let res := substituted sc id name domain in
  if 63 <? String.length res
  then let '(_, out) := glog.Warningf (lengthWarning res id) in (id, out)
  else (res, []).

(** [newSyncConfig] defines the default values for [syncConfig]; the field
    left out, [ProjectBlackList], is the nil slice. *)
Definition newSyncConfig : syncConfig :=
  {| NamespaceFormat := "%i";
     DataTypesToSync := allowedDataTypesToSync;
     ProjectBlackList := [] |}.

(** Modelled from the spec: decoding one field of a document into the
    struct, by the [yaml] tags of [syncConfig] ([data_types_to_sync],
    [namespace_format], [projects_black_list]).  A field of the document
    overwrites the struct's field; a key that is no tag of the struct is
    skipped; a value of the wrong shape is an error. *)
Definition setField (sc : syncConfig) (key : string) (v : yaml.value)
  : syncConfig + error :=
  if String.eqb key "data_types_to_sync" then
    match v with
    | yaml.Sequence items =>
        inl {| DataTypesToSync := items;
               NamespaceFormat := NamespaceFormat sc;
               ProjectBlackList := ProjectBlackList sc |}
    | yaml.Scalar _ => inr (TypeError ["cannot unmarshal !!str into []string"])
    end
  else if String.eqb key "namespace_format" then
    match v with
    | yaml.Scalar s =>
        inl {| DataTypesToSync := DataTypesToSync sc;
               NamespaceFormat := s;
               ProjectBlackList := ProjectBlackList sc |}
    | yaml.Sequence _ => inr (TypeError ["cannot unmarshal !!seq into string"])
    end
  else if String.eqb key "projects_black_list" then
    match v with
    | yaml.Sequence items =>
        inl {| DataTypesToSync := DataTypesToSync sc;
               NamespaceFormat := NamespaceFormat sc;
               ProjectBlackList := items |}
    | yaml.Scalar _ => inr (TypeError ["cannot unmarshal !!str into []string"])
    end
  else inl sc.

(** Modelled from the spec: the fields present in the document are laid
    over the struct, in document order; the fields absent from it keep the
    value the struct had. *)
Fixpoint overlay (doc : yaml.document) (sc : syncConfig) : syncConfig + error :=
  match doc with
  | [] => inl sc
  | (key, v) :: doc' =>
      match setField sc key v with
      | inl sc' => overlay doc' sc'
      | inr err => inr err
      end
  end.

Section FromFile.

(** [ioutil.ReadFile]: the content of the file at a path, or an error. *)
Variable ReadFile : string -> string + error.

(** The YAML parser: the document a byte string denotes, or a parse
    error when it is malformed. *)
Variable parse : string -> yaml.document + error.

(** Modelled from the spec: [yaml.Unmarshal(in, &sc)] parses the bytes
    and lays the document over the struct it is given. *)
Definition Unmarshal (yamlFile : string) (sc : syncConfig) : syncConfig + error :=
  match parse yamlFile with
  | inl doc => overlay doc sc
  | inr err => inr err
  end.

(** [newSyncConfigFromFile] loads a sync config from a file.  The result
    is Go's pair of a pointer ([None] is [nil]) and an error. *)
Definition newSyncConfigFromFile (path : string)
  : glog.Logged (option syncConfig * option error) :=
  let sc := newSyncConfig in
  match ReadFile path with
  | inr err =>
      let '(_, out) := glog.Errorf ("yamlFile get err   #" +:+ Error err +:+ " ") in
      ((None, Some err), out)
  | inl yamlFile =>
      match Unmarshal yamlFile sc with
      | inr err =>
          let '(_, out) := glog.Errorf ("Unmarshal: " +:+ Error err) in
          ((None, Some err), out)
      | inl sc' => ((Some sc', None), [])
      end
  end.

End FromFile.

End keystone.

(** ** The world outside: Manila and Kubernetes *)

Module shares.

(** [shares.Share], [shares.ExportLocation], [shares.AccessRight] and
    [shares.GrantAccessOpts] of gophercloud, with the fields the code
    reads or writes (and, for [AccessRight], all of its fields, since its
    zero value is observed). *)
Record Share : Type := { ID : string; Name : string }.

Record ExportLocation : Type := { Path : string }.

Record AccessRight : Type := {
  AccessRightID : string;
  ShareID : string;
  AccessType : string;
  AccessTo : string;
  AccessKey : string;
  State : string;
  AccessLevel : string
}.

(** The zero value [var accessRight shares.AccessRight]. *)
Definition zeroAccessRight : AccessRight :=
  {| AccessRightID := ""; ShareID := ""; AccessType := ""; AccessTo := "";
     AccessKey := ""; State := ""; AccessLevel := "" |}.

Record GrantAccessOpts : Type := {
  optAccessType : string;
  optAccessTo : string;
  optAccessLevel : string
}.

(** The requests a service client sends. *)
Inductive Request : Type :=
| GrantAccessRequest (shareID : string) (opts : GrantAccessOpts)
| ListAccessRightsRequest (shareID : string).

End shares.

Module gophercloud.

(** What has happened so far: the time in seconds and the requests sent,
    oldest first. *)
Record World : Type := { clock : nat; sent : list shares.Request }.

(** What a computation adds to the world: the seconds it takes and the
    requests it sends.  Time only moves forward and requests are never
    taken back. *)
Record Delta : Type := { elapsed : nat; issued : list shares.Request }.

Definition nothing : Delta := {| elapsed := 0; issued := [] |}.

Definition andThen (d1 d2 : Delta) : Delta :=
  {| elapsed := elapsed d1 + elapsed d2; issued := issued d1 ++ issued d2 |}.

Definition after (w : World) (d : Delta) : World :=
  {| clock := clock w + elapsed d; sent := sent w ++ issued d |}.

(** A computation that talks to the world: from the world it starts in,
    its value and what it adds. *)
Definition M (A : Type) : Type := World -> A * Delta.

Definition ret {A} (a : A) : M A := fun _ => (a, nothing).

Definition bind {A B} (m : M A) (f : A -> M B) : M B :=
  fun w =>
    let '(a, d1) := m w in
    let '(b, d2) := f a (after w d1) in
    (b, andThen d1 d2).

(** [*gophercloud.ServiceClient]: the Manila endpoint behind the client.
    Its answer to a request may depend on everything that has happened so
    far; it comes with the seconds the call took. *)
Record ServiceClient : Type := {
  grantAccess : World -> string -> shares.GrantAccessOpts
                -> nat * (shares.AccessRight + error);
  listAccessRights : World -> string -> nat * (list shares.AccessRight + error)
}.

(** [shares.GrantAccess(client, id, opts).Extract()]. *)
Definition GrantAccess (client : ServiceClient) (id : string)
    (opts : shares.GrantAccessOpts) : M (shares.AccessRight + error) :=
  fun w =>
    let '(dt, r) := grantAccess client w id opts in
    (r, {| elapsed := dt; issued := [shares.GrantAccessRequest id opts] |}).

(** [shares.ListAccessRights(client, id).Extract()]. *)
Definition ListAccessRights (client : ServiceClient) (id : string)
  : M (list shares.AccessRight + error) :=
  fun w =>
    let '(dt, r) := listAccessRights client w id in
    (r, {| elapsed := dt; issued := [shares.ListAccessRightsRequest id] |}).

(** Modelled from the spec: the fixed interval between two polls,
    [time.Sleep(1 * time.Second)]. *)
Definition sleep : Delta := {| elapsed := 1; issued := [] |}.

(** Modelled from the spec: the error of a wait whose budget is used up. *)
Definition ErrTimeout : error := errorString "A timeout occurred".

(** Modelled from the spec: one round of a wait; either the wait is over,
    or it goes on. *)
Inductive round (S : Type) : Type :=
| Return (err : option error) (s : S) (d : Delta)
| Continue (s : S) (d : Delta).
Arguments Return {S} err s d.
Arguments Continue {S} s d.

(** Modelled from the spec: a round calls the predicate, a closure whose
    captured variables are [s]; an error of the predicate or a satisfied
    predicate ends the wait. *)
Definition poll {S} (check : S -> M ((bool * option error) * S))
    (s : S) (w : World) : round S :=
  let '((satisfied, err), s', d) := check s w in
  match err with
  | Some e => Return (Some e) s' d
  | None => if satisfied then Return None s' d else Continue s' d
  end.

(** Modelled from the spec: [gophercloud.WaitFor] is not part of the
    sources.  It polls the predicate on a fixed interval of one second up
    to a wall-clock budget of [timeout] seconds: a round starts only while
    the time elapsed since the start is below the budget; an error of the
    predicate ends the wait with that error, a satisfied predicate ends it
    with no error, and a budget used up ends it with the timeout error.
    [acc] is what the rounds so far have added to the world [w] the wait
    started in. *)
Equations WaitFor_loop {S} (timeout : nat)
    (check : S -> M ((bool * option error) * S))
    (acc : Delta) (s : S) (w : World) : (option error * S) * Delta
    by wf (timeout - elapsed acc) lt :=
  WaitFor_loop timeout check acc s w with lt_dec (elapsed acc) timeout => {
    | right _ => ((Some ErrTimeout, s), acc)
    | left _ with poll check s (after w (andThen acc sleep)) => {
        | Return err s' d => ((err, s'), andThen (andThen acc sleep) d)
        | Continue s' d =>
            WaitFor_loop timeout check (andThen (andThen acc sleep) d) s' w } }.
Next Obligation. simpl. lia. Qed.

(** Modelled from the spec: [gophercloud.WaitFor(timeout, predicate)]. *)
Definition WaitFor {S} (timeout : nat)
    (check : S -> M ((bool * option error) * S)) (s : S)
  : M (option error * S) :=
  fun w => WaitFor_loop timeout check nothing s w.

End gophercloud.

Module kubernetes.

(** [v1.Secret], with the fields the code sets. *)
Record Secret : Type := {
  SecretName : string;
  Data : gmap string (list Byte.byte)
}.

(** [clientset.Interface], narrowed to [CoreV1().Secrets(namespace)]: the
    calls take the client's state and give the state after the call. *)
Class Interface (C : Type) : Type := {
  Create : C -> string -> Secret -> C * (option Secret * option error);
  Delete : C -> string -> string -> C * option error
}.

(** A client over a store held in memory, keyed by namespace and name:
    creating what exists and deleting what does not are status errors. *)
Definition store : Type := gmap (string * string) Secret.

Definition storeCreate (st : store) (namespace : string) (sec : Secret)
  : store * (option Secret * option error) :=
  match st !! (namespace, SecretName sec) with
  | Some _ =>
      (st, (None, Some (StatusError StatusReasonAlreadyExists
                          ("secrets " +:+ SecretName sec +:+ " already exists"))))
  | None => (<[(namespace, SecretName sec) := sec]> st, (Some sec, None))
  end.

Definition storeDelete (st : store) (namespace name : string)
  : store * option error :=
  match st !! (namespace, name) with
  | Some _ => (delete (namespace, name) st, None)
  | None =>
      (st, Some (StatusError StatusReasonNotFound
                   ("secrets " +:+ name +:+ " not found")))
  end.

#[global] Instance storeClient : Interface store :=
  {| Create := storeCreate; Delete := storeDelete |}.

End kubernetes.

(** ** Package [sharebackends] *)

Module sharebackends.

Import gophercloud.

(** [GrantAccessArgs], with the fields [grantAccessCephx] reads. *)
Record GrantAccessArgs : Type := {
  Share : shares.Share;
  Client : ServiceClient
}.

Definition getSecretName (shareID : string) : string := "manila-" +:+ shareID.

Definition errParseExportLocation (path : string) : error :=
  fmt.Errorf ("failed to parse address and location from export location '"
              +:+ path +:+ "'").

(** Splits an export location path [addr1:port,addr2:port,...:/location]
    into its address and location parts.  The last occurrence of [:] is
    the delimiter.  The results are Go's named results [address],
    [location], [err]: on the early return the strings are still empty. *)
Definition splitExportLocation (loc : shares.ExportLocation)
  : string * string * option error :=
  let delimPos := strings.LastIndexByte (shares.Path loc) ":" in
  if (delimPos <=? 0)%Z
  then ("", "", Some (errParseExportLocation (shares.Path loc)))
  else
    let address := strings.sliceTo (shares.Path loc) (Z.to_nat delimPos) in
    let location := strings.sliceFrom (shares.Path loc) (Z.to_nat (delimPos + 1)) in
    (address, location, None).

Section Secrets.

Context {C : Type} `{kubernetes.Interface C}.

Definition createSecret (name namespace : string) (cs : C)
    (data : gmap string (list Byte.byte)) : C * option error :=
  let sec := {| kubernetes.SecretName := name; kubernetes.Data := data |} in
  match kubernetes.Create cs namespace sec with
  | (cs', (_, Some err)) => (cs', Some err)
  | (cs', (_, None)) => (cs', None)
  end.

Definition deleteSecret (name namespace : string) (cs : C) : C * option error :=
  kubernetes.Delete cs namespace name.

End Secrets.

Definition errUnexpectedAccessRules (n : nat) : error :=
  fmt.Errorf ("unexpected number of access rules: got " +:+ pretty n +:+ ", expected 1").

(** The closure handed to [WaitFor]; the state is the captured variable
    [accessRight]. *)
Definition awaitAccessKey (args : GrantAccessArgs) (accessRight : shares.AccessRight)
  : M ((bool * option error) * shares.AccessRight) :=
  bind (ListAccessRights (Client args) (shares.ID (Share args))) (fun r =>
    match r with
    | inr err => ret ((false, Some err), accessRight)
    | inl accessRights =>
        if 1 <? length accessRights
        then ret ((false, Some (errUnexpectedAccessRules (length accessRights))),
                  accessRight)
        else
          match accessRights with
          | [] => ret ((false, None), accessRight)
          | first :: _ =>
              if negb (String.eqb (shares.AccessKey first) "")
              then ret ((true, None), first)
              else ret ((false, None), accessRight)
          end
    end).

(** Grants access to a Ceph share.  The keys are generated by the Ceph
    back end: they are not in the response to the grant and are queried
    by the calls to [ListAccessRights] that follow.  The result is Go's
    pair of a pointer ([None] is [nil]) and an error. *)
Definition grantAccessCephx (args : GrantAccessArgs)
  : M (option shares.AccessRight * option error) :=
  let accessOpts :=
    {| shares.optAccessType := "cephx";
       shares.optAccessTo := shares.Name (Share args);
       shares.optAccessLevel := "rw" |} in
  bind (GrantAccess (Client args) (shares.ID (Share args)) accessOpts) (fun r =>
    match r with
    | inr err => ret (None, Some err)
    | inl _ =>
        bind (WaitFor 120 (awaitAccessKey args) shares.zeroAccessRight)
          (fun '(err, accessRight) => ret (Some accessRight, err))
    end).

End sharebackends.

(** ** The design document's reading of rendering and of the poll outcomes *)

Module design.

(** Rendering as the design document words it: the template is read once,
    from left to right, and every placeholder found in the template itself
    is replaced by its value; the values are copied and never read
    again. *)
Fixpoint render (id name domain : string) (template : string) : string :=
  match template with
  | EmptyString => EmptyString
  | String c rest =>
      match rest with
      | String d rest' =>
          if Ascii.eqb c "%" then
            if Ascii.eqb d "i" then id +:+ render id name domain rest'
            else if Ascii.eqb d "n" then name +:+ render id name domain rest'
            else if Ascii.eqb d "d" then domain +:+ render id name domain rest'
            else String c (render id name domain rest)
          else String c (render id name domain rest)
      | EmptyString => String c EmptyString
      end
  end.

(** A string that does not begin with the second byte of [%n] or [%d]:
    put after a [%], it forms no placeholder. *)
Definition quiet (s : string) : Prop :=
  match s with
  | EmptyString => True
  | String h _ => h <> "n"%char /\ h <> "d"%char
  end.

Definition quietValue (s : string) : Prop := s <> "" /\ quiet s.

Fixpoint allOf (p : ascii -> bool) (s : string) : bool :=
  match s with
  | EmptyString => true
  | String c s' => p c && allOf p s'
  end.

(** A well-formed namespace name: it starts and ends with an alphanumeric
    character, and the characters in between are alphanumerics, [-], [_]
    or [.]. *)
Definition wellFormedName (s : string) : Prop :=
  exists first middle last,
    s = String first (middle +:+ String last "")
    /\ regexp.inClass keystone.alnum first = true
    /\ allOf (regexp.inClass keystone.inner) middle = true
    /\ regexp.inClass keystone.alnum last = true.


(** The fields of the configuration document, the tag that names each in
    the document, and the value each has in a configuration. *)
Inductive field : Type := data_types_to_sync | namespace_format | projects_black_list.

Definition tag (f : field) : string :=
  match f with
  | data_types_to_sync => "data_types_to_sync"
  | namespace_format => "namespace_format"
  | projects_black_list => "projects_black_list"
  end.

Definition get (f : field) (sc : keystone.syncConfig) : yaml.value :=
  match f with
  | data_types_to_sync => yaml.Sequence (keystone.DataTypesToSync sc)
  | namespace_format => yaml.Scalar (keystone.NamespaceFormat sc)
  | projects_black_list => yaml.Sequence (keystone.ProjectBlackList sc)
  end.

(** The value a document gives to a key, if the key is present: the last
    one, when the key is repeated. *)
Fixpoint present (key : string) (doc : yaml.document) : option yaml.value :=
  match doc with
  | [] => None
  | (k, v) :: doc' =>
      match present key doc' with
      | Some v' => Some v'
      | None => if String.eqb k key then Some v else None
      end
  end.


(** What one poll of the access rights means for the wait. *)
Inductive outcome : Type :=
| Abort (e : error)
| NotYetReady
| Ready (r : shares.AccessRight)
| Inconsistent (n : nat).

(** A backend error aborts; zero records, or one record with an empty
    access key, mean not yet ready; one record with an access key is the
    result; more than one record is an inconsistency. *)
Definition classify (answer : list shares.AccessRight + error) : outcome :=
  match answer with
  | inr e => Abort e
  | inl [] => NotYetReady
  | inl [r] => if String.eqb (shares.AccessKey r) "" then NotYetReady else Ready r
  | inl (r1 :: r2 :: rest) => Inconsistent (length (r1 :: r2 :: rest))
  end.

(** Not yet ready, in words: no record, or one record whose access key is
    empty. *)
Definition notYetReady (answer : list shares.AccessRight + error) : Prop :=
  answer = inl [] \/ exists r, answer = inl [r] /\ shares.AccessKey r = "".

(** What a grant that took [dt] seconds adds to the world. *)
Definition granting (args : sharebackends.GrantAccessArgs) (dt : nat)
  : gophercloud.Delta :=
  {| gophercloud.elapsed := dt;
     gophercloud.issued :=
       [shares.GrantAccessRequest (shares.ID (sharebackends.Share args))
          {| shares.optAccessType := "cephx";
             shares.optAccessTo := shares.Name (sharebackends.Share args);
             shares.optAccessLevel := "rw" |}] |}.

Section Rounds.

Variable args : sharebackends.GrantAccessArgs.

(** The world in which the wait starts. *)
Variable w : gophercloud.World.

Let shareID := shares.ID (sharebackends.Share args).

(** What the first [k] rounds of polling add to the world when none of
    them ends the wait: per round, one second of sleep, then the
    request and the time its answer takes. *)
Fixpoint before (k : nat) : gophercloud.Delta :=
  match k with
  | O => gophercloud.nothing
  | S k' =>
      let acc := gophercloud.andThen (before k') gophercloud.sleep in
      gophercloud.andThen acc
        {| gophercloud.elapsed :=
             fst (gophercloud.listAccessRights (sharebackends.Client args)
                    (gophercloud.after w acc) shareID);
           gophercloud.issued := [shares.ListAccessRightsRequest shareID] |}
  end.

(** The answer to the poll of round [k] (counting from 0). *)
Definition answer (k : nat) : list shares.AccessRight + error :=
  snd (gophercloud.listAccessRights (sharebackends.Client args)
         (gophercloud.after w (gophercloud.andThen (before k) gophercloud.sleep))
         shareID).

(** Rounds [0] to [k - 1] all started within the budget and found the
    access key not yet ready. *)
Definition pending (budget k : nat) : Prop :=
  forall j, j < k ->
    gophercloud.elapsed (before j) < budget /\ notYetReady (answer j).

End Rounds.

End design.

(** ** A scripted Manila endpoint *)

Module scripted.

(** The number of polls sent so far. *)
Fixpoint polls (sent : list shares.Request) : nat :=
  match sent with
  | [] => 0
  | shares.ListAccessRightsRequest _ :: sent' => S (polls sent')
  | shares.GrantAccessRequest _ _ :: sent' => polls sent'
  end.

(** An endpoint that answers a grant with [granted] and the polls by a
    script, each answer with the seconds it takes; past the end of the
    script it keeps giving [last]. *)
Definition client (granted : nat * (shares.AccessRight + error))
    (script : list (nat * (list shares.AccessRight + error)))
    (last : nat * (list shares.AccessRight + error)) : gophercloud.ServiceClient :=
  {| gophercloud.grantAccess := fun _ _ _ => granted;
     gophercloud.listAccessRights :=
       fun w _ => nth (polls (gophercloud.sent w)) script last |}.

Definition accessRight (key : string) : shares.AccessRight :=
  {| shares.AccessRightID := "a7c3";
     shares.ShareID := "5d0e";
     shares.AccessType := "cephx";
     shares.AccessTo := "pvc-1";
     shares.AccessKey := key;
     shares.State := "active";
     shares.AccessLevel := "rw" |}.

Definition args (client : gophercloud.ServiceClient) : sharebackends.GrantAccessArgs :=
  {| sharebackends.Share := {| shares.ID := "5d0e"; shares.Name := "pvc-1" |};
     sharebackends.Client := client |}.

Definition start : gophercloud.World :=
  {| gophercloud.clock := 1000; gophercloud.sent := [] |}.

End scripted.

(** ** Shapes of names and of templates *)

Module shape.

(** The first byte of [s] satisfies [p]. *)
Definition firstIs (p : ascii -> bool) (s : string) : bool :=
  match s with
  | EmptyString => false
  | String c _ => p c
  end.

(** The last byte of [s] satisfies [p]. *)
Fixpoint lastIs (p : ascii -> bool) (s : string) : bool :=
  match s with
  | EmptyString => false
  | String c EmptyString => p c
  | String _ s' => lastIs p s'
  end.

(** A value fit to be put into a name: not empty, alphanumeric at both
    ends, and made of alphanumerics, [-], [_] and [.]. *)
Definition label (v : string) : bool :=
  firstIs (regexp.inClass keystone.alnum) v
  && lastIs (regexp.inClass keystone.alnum) v
  && design.allOf (regexp.inClass keystone.inner) v.

(** A [%] of the template that starts no placeholder: what follows it is
    neither [i], [n] nor [d]. *)
Definition strayPercent (template : string) : Prop :=
  exists l r,
    template = l +:+ "%" +:+ r
    /\ strings.HasPrefix r "i" = false
    /\ strings.HasPrefix r "n" = false
    /\ strings.HasPrefix r "d" = false.

End shape.

(** * Properties *)

(** ** The embedding at work *)

Example Replace_every_occurrence :
  strings.Replace "%i-%i" "%i" "x" = "x-x"
  /\ strings.Replace "aaa" "aa" "b" = "ba".
Proof. split; reflexivity. Qed.

Example LastIndexByte_last :
  strings.LastIndexByte "a:b:c" ":" = 3%Z /\ strings.LastIndexByte "abc" ":" = (-1)%Z.
Proof. split; reflexivity. Qed.

Example formatNamespaceName_every_occurrence :
  keystone.formatNamespaceName
    {| keystone.DataTypesToSync := ["projects"];
       keystone.NamespaceFormat := "%i-%i";
       keystone.ProjectBlackList := [] |} "x" "y" "z"
  = ("x-x", []).
Proof. reflexivity. Qed.

Example validate_examples :
  keystone.validate keystone.newSyncConfig = None
  /\ keystone.validate
       {| keystone.DataTypesToSync := ["projects"];
          keystone.NamespaceFormat := "-%i";
          keystone.ProjectBlackList := [] |} = Some keystone.errBadName
  /\ keystone.validate
       {| keystone.DataTypesToSync := ["projects"];
          keystone.NamespaceFormat := "%n";
          keystone.ProjectBlackList := [] |} = Some keystone.errNoProjectID.
Proof. repeat split. Qed.

(** ** Strings *)

Section StringFacts.

Implicit Types (s t old new : string) (a b c : ascii).

Lemma app_cons c s t : String c s +:+ t = String c (s +:+ t).
Proof. reflexivity. Qed.

Lemma app_empty_l s : "" +:+ s = s.
Proof. reflexivity. Qed.

Lemma app_empty_r s : s +:+ "" = s.
Proof. induction s as [|c s IH]; [reflexivity|]. rewrite app_cons, IH. reflexivity. Qed.

Lemma HasPrefix_spec s p : strings.HasPrefix s p = true <-> exists r, s = p +:+ r.
Proof.
  revert s. induction p as [|a p IH]; intros s; simpl.
  - split; [intros _; exists s; reflexivity | reflexivity].
  - destruct s as [|c s].
    + split; [discriminate | intros [r Hr]; discriminate].
    + rewrite andb_true_iff, IH. split.
      * intros [Hac [r ->]]. apply Ascii.eqb_eq in Hac as ->.
        exists r. reflexivity.
      * intros [r Hr]. rewrite app_cons in Hr. injection Hr as -> ->.
        split; [apply Ascii.eqb_refl | exists r; reflexivity].
Qed.

Lemma replaceFrom_skip p r old new :
  strings.replaceFrom (String.length p) (p +:+ r) old new
  = strings.replaceFrom 0 r old new.
Proof.
  induction p as [|c p IH]; [reflexivity|].
  rewrite app_cons. simpl. exact IH.
Qed.

(** The two equations of a replacement: at an occurrence, and elsewhere. *)
Lemma Replace_hit a old r new :
  strings.Replace (String a old +:+ r) (String a old) new
  = new +:+ strings.Replace r (String a old) new.
Proof.
  unfold strings.Replace. rewrite app_cons.
  cbn [strings.replaceFrom].
  assert (Hp : strings.HasPrefix (String a (old +:+ r)) (String a old) = true).
  { apply HasPrefix_spec. exists r. reflexivity. }
  rewrite Hp. f_equal.
  replace (String.length (String a old) - 1) with (String.length old)
    by (simpl; lia).
  apply replaceFrom_skip.
Qed.

Lemma Replace_miss c s a old new :
  strings.HasPrefix (String c s) (String a old) = false ->
  strings.Replace (String c s) (String a old) new
  = String c (strings.Replace s (String a old) new).
Proof.
  intros Hp. unfold strings.Replace. cbn [strings.replaceFrom].
  rewrite Hp. reflexivity.
Qed.

Lemma Replace_empty old new : strings.Replace "" old new = "".
Proof. destruct old; reflexivity. Qed.

(** A byte that does not start the pattern is copied. *)
Lemma Replace_other c s a old new :
  c <> a ->
  strings.Replace (String c s) (String a old) new
  = String c (strings.Replace s (String a old) new).
Proof.
  intros Hc. apply Replace_miss. simpl.
  destruct (Ascii.eqb_spec a c) as [->|_]; [contradiction | reflexivity].
Qed.

(** Two-byte patterns, the shape of the placeholders. *)
Lemma Replace2_hit a b r new :
  strings.Replace (String a (String b r)) (String a (String b "")) new
  = new +:+ strings.Replace r (String a (String b "")) new.
Proof. apply (Replace_hit a (String b "") r new). Qed.

Lemma Replace2_second c d s a b new :
  d <> b ->
  strings.Replace (String c (String d s)) (String a (String b "")) new
  = String c (strings.Replace (String d s) (String a (String b "")) new).
Proof.
  intros Hd. apply Replace_miss. simpl.
  destruct (Ascii.eqb_spec b d) as [->|_]; [contradiction|].
  rewrite andb_false_r. reflexivity.
Qed.

Lemma Replace2_last c a b new :
  strings.Replace (String c "") (String a (String b "")) new = String c "".
Proof.
  rewrite Replace_miss; [reflexivity|].
  simpl. apply andb_false_r.
Qed.

End StringFacts.

(** ** Chained passes against the one-pass rendering *)

Section Rendering.

Variables id name domain : string.

Let pass1 (t : string) := strings.Replace t "%i" id.
Let pass2 (t : string) := strings.Replace t "%n" name.
Let pass3 (t : string) := strings.Replace t "%d" domain.

Lemma Contains_tail c s p :
  strings.Contains (String c s) p = false -> strings.Contains s p = false.
Proof. simpl. intros H. apply orb_false_iff in H as [_ H]. exact H. Qed.

Lemma Contains_percent c s :
  strings.Contains (String c s) "%" = false -> c <> "%"%char.
Proof.
  simpl. intros H Hc. subst c. discriminate.
Qed.

(** A value without [%] is copied by a later pass. *)
Lemma Replace_through x s b new :
  strings.Contains x "%" = false ->
  strings.Replace (x +:+ s) (String "%" (String b "")) new
  = x +:+ strings.Replace s (String "%" (String b "")) new.
Proof.
  induction x as [|c x IH]; intros Hx; [reflexivity|].
  rewrite !app_cons, Replace_other by (eapply Contains_percent, Hx).
  rewrite IH by (eapply Contains_tail, Hx). reflexivity.
Qed.

Lemma render_other c t :
  c <> "%"%char ->
  design.render id name domain (String c t) = String c (design.render id name domain t).
Proof.
  intros Hc. destruct t as [|d t]; [reflexivity|].
  cbn [design.render].
  destruct (Ascii.eqb_spec c "%") as [->|_]; [contradiction | reflexivity].
Qed.

Lemma render_literal d t :
  d <> "i"%char -> d <> "n"%char -> d <> "d"%char ->
  design.render id name domain (String "%" (String d t))
  = String "%" (design.render id name domain (String d t)).
Proof.
  intros Hi Hn Hd. cbn [design.render].
  destruct (Ascii.eqb_spec d "i") as [->|_]; [contradiction|].
  destruct (Ascii.eqb_spec d "n") as [->|_]; [contradiction|].
  destruct (Ascii.eqb_spec d "d") as [->|_]; [contradiction|].
  reflexivity.
Qed.

Lemma quiet_Replace y b new :
  design.quietValue new -> design.quiet y ->
  design.quiet (strings.Replace y (String "%" (String b "")) new).
Proof.
  intros [Hne Hq] Hy. destruct y as [|h y]; [exact I|].
  destruct (strings.HasPrefix (String h y) (String "%" (String b ""))) eqn:Hp.
  - apply HasPrefix_spec in Hp as [r ->].
    rewrite (Replace_hit "%" (String b "") r new).
    destruct new as [|n0 new]; [contradiction|]. exact Hq.
  - rewrite Replace_miss by exact Hp. exact Hy.
Qed.

Lemma Replace_percent_quiet y b new :
  (b = "n" \/ b = "d")%char -> design.quiet y ->
  strings.Replace (String "%" y) (String "%" (String b "")) new
  = String "%" (strings.Replace y (String "%" (String b "")) new).
Proof.
  intros Hb Hy. destruct y as [|h y].
  - rewrite Replace2_last, Replace_empty. reflexivity.
  - apply Replace2_second. destruct Hy as [Hn Hd].
    destruct Hb as [-> | ->]; assumption.
Qed.

Hypothesis id_plain : strings.Contains id "%" = false.
Hypothesis name_plain : strings.Contains name "%" = false.

Lemma chained_is_render_bounded n : forall t,
  String.length t <= n ->
  strings.Contains t "%%" = false \/ (design.quietValue id /\ design.quietValue name) ->
  pass3 (pass2 (pass1 t)) = design.render id name domain t.
Proof.
  unfold pass1, pass2, pass3.
  induction n as [|n IH]; intros t Hlen Hside.
  { destruct t; [reflexivity | simpl in Hlen; lia]. }
  destruct t as [|c t]; [reflexivity|].
  assert (Hside' : forall u, (exists x, String c t = x +:+ u) ->
            strings.Contains u "%%" = false
            \/ (design.quietValue id /\ design.quietValue name)).
  { intros u [x Hx]. destruct Hside as [Hc|Hq]; [left | right; exact Hq].
    rewrite Hx in Hc. clear Hx. induction x as [|a x IHx]; [exact Hc|].
    apply IHx. rewrite app_cons in Hc. eapply Contains_tail, Hc. }
  simpl in Hlen.
  destruct (Ascii.eqb_spec c "%") as [->|Hc].
  2:{ rewrite !Replace_other by exact Hc. rewrite render_other by exact Hc.
      f_equal. apply IH; [lia|]. apply Hside'. exists (String c ""). reflexivity. }
  destruct t as [|d t].
  { rewrite !Replace2_last. reflexivity. }
  simpl in Hlen.
  assert (Hrest : strings.Replace (strings.Replace (strings.Replace t "%i" id) "%n" name)
                    "%d" domain = design.render id name domain t).
  { apply IH; [lia|]. apply Hside'. exists (String "%" (String d "")). reflexivity. }
  destruct (Ascii.eqb_spec d "i") as [->|Hi].
  { rewrite Replace2_hit, !Replace_through by assumption.
    rewrite Hrest. reflexivity. }
  destruct (Ascii.eqb_spec d "n") as [->|Hn].
  { rewrite Replace2_second by discriminate.
    rewrite (Replace_other "n") by discriminate.
    rewrite Replace2_hit, Replace_through by assumption.
    rewrite Hrest. reflexivity. }
  destruct (Ascii.eqb_spec d "d") as [->|Hd].
  { rewrite Replace2_second by discriminate.
    rewrite (Replace_other "d") by discriminate.
    rewrite Replace2_second by discriminate.
    rewrite (Replace_other "d") by discriminate.
    rewrite Replace2_hit. rewrite Hrest. reflexivity. }
  rewrite render_literal by assumption.
  destruct (Ascii.eqb_spec d "%") as [->|Hp].
  - (* a [%] before a [%]: only the second can start a placeholder *)
    destruct Hside as [Hc|[Hqi Hqn]]; [discriminate Hc|].
    rewrite Replace2_second by discriminate.
    assert (Hq1 : design.quiet (strings.Replace (String "%" t) "%i" id)).
    { apply quiet_Replace; [exact Hqi|]. split; discriminate. }
    rewrite Replace_percent_quiet by (auto || exact Hq1).
    rewrite Replace_percent_quiet
      by (auto || (apply quiet_Replace; [exact Hqn | exact Hq1])).
    f_equal. apply IH; [simpl; lia|]. right. split; assumption.
  - rewrite Replace2_second by assumption.
    rewrite (Replace_other d) by assumption.
    rewrite Replace2_second by assumption.
    rewrite (Replace_other d) by assumption.
    rewrite Replace2_second by assumption.
    rewrite (Replace_other d) by assumption.
    rewrite render_other by assumption.
    rewrite Hrest. reflexivity.
Qed.

(** The three chained passes give the one-pass rendering when the values
    put in by the first two passes hold no [%], and either the template
    has no [%%] or those values are non-empty and begin with neither [n]
    nor [d]. *)
Lemma chained_is_render t :
  strings.Contains t "%%" = false \/ (design.quietValue id /\ design.quietValue name) ->
  strings.Replace (strings.Replace (strings.Replace t "%i" id) "%n" name) "%d" domain
  = design.render id name domain t.
Proof. apply (chained_is_render_bounded (String.length t)). lia. Qed.

End Rendering.

(** ** The matcher decides the language *)

Section RegexpFacts.

Import regexp.

Lemma app_eq_empty s1 s2 : s1 +:+ s2 = "" -> s1 = "" /\ s2 = "".
Proof.
  destruct s1; [rewrite app_empty_l; intros ->; split; reflexivity|].
  rewrite app_cons. discriminate.
Qed.

Lemma app_eq_cons s1 s2 c s :
  s1 +:+ s2 = String c s ->
  (s1 = "" /\ s2 = String c s) \/ (exists s1', s1 = String c s1' /\ s = s1' +:+ s2).
Proof.
  destruct s1 as [|a s1]; [rewrite app_empty_l; intros ->; left; split; reflexivity|].
  rewrite app_cons. intros [= -> <-]. right. exists s1. split; reflexivity.
Qed.

Lemma nullable_matches r : nullable r = true <-> matches r "".
Proof.
  split.
  - induction r; simpl; intros Hn; try discriminate.
    + constructor.
    + apply andb_true_iff in Hn as [H1 H2].
      apply (m_concat _ _ "" ""); auto.
    + apply orb_true_iff in Hn as [H1|H2];
        [apply m_alt_l | apply m_alt_r]; auto.
    + constructor.
  - intros Hm. remember "" as s eqn:Hs.
    induction Hm; simpl; try reflexivity; try discriminate.
    + apply app_eq_empty in Hs as [-> ->].
      rewrite IHHm1, IHHm2; reflexivity.
    + rewrite IHHm by exact Hs. reflexivity.
    + rewrite IHHm by exact Hs. apply orb_true_r.
Qed.

Lemma derive_sound c r : forall s, matches (derive c r) s -> matches r (String c s).
Proof.
  induction r as [| |cl|r1 IH1 r2 IH2|r1 IH1 r2 IH2|r1 IH1]; simpl; intros s Hm.
  - inversion Hm.
  - inversion Hm.
  - destruct (inClass cl c) eqn:Hc; inversion Hm; subst.
    apply m_class, Hc.
  - assert (Hcat : matches (Concat (derive c r1) r2) s -> matches (Concat r1 r2) (String c s)).
    { intros Hcat. inversion Hcat; subst.
      apply (m_concat r1 r2 (String c s1) s2); auto. }
    destruct (nullable r1) eqn:Hn; [|auto].
    inversion Hm; subst; [auto|].
    apply (m_concat r1 r2 "" (String c s)); [apply nullable_matches, Hn | auto].
  - inversion Hm; subst; [apply m_alt_l | apply m_alt_r]; auto.
  - inversion Hm; subst.
    apply (m_star_cons r1 (String c s1) s2); auto.
Qed.

Lemma derive_complete c r t :
  matches r t -> forall s, t = String c s -> matches (derive c r) s.
Proof.
  induction 1 as [|cl c0 Hc|r1 r2 s1 s2 H1 IH1 H2 IH2|r1 r2 s0 H1 IH1
                 |r1 r2 s0 H2 IH2|r1|r1 s1 s2 H1 IH1 H2 IH2];
    intros s Ht; simpl.
  - discriminate.
  - injection Ht as -> <-. rewrite Hc. constructor.
  - apply app_eq_cons in Ht as [[-> ->]|[s1' [-> ->]]].
    + apply nullable_matches in H1. rewrite H1.
      apply m_alt_r. apply IH2. reflexivity.
    + assert (Hcat : matches (Concat (derive c r1) r2) (s1' +:+ s2)).
      { apply m_concat; [apply IH1; reflexivity | exact H2]. }
      destruct (nullable r1); [apply m_alt_l|]; exact Hcat.
  - apply m_alt_l. auto.
  - apply m_alt_r. auto.
  - discriminate.
  - apply app_eq_cons in Ht as [[-> ->]|[s1' [-> ->]]].
    + apply IH2. reflexivity.
    + apply m_concat; [apply IH1; reflexivity | exact H2].
Qed.

Lemma MatchString_matches s : forall re, MatchString re s = true <-> matches re s.
Proof.
  induction s as [|c s IH]; intros re; simpl.
  - apply nullable_matches.
  - rewrite IH. split; [apply derive_sound|].
    intros Hm. eapply derive_complete; [exact Hm | reflexivity].
Qed.

Lemma star_class_matches cl s :
  matches (Star (CharClass cl)) s <-> design.allOf (inClass cl) s = true.
Proof.
  split.
  - intros Hm. remember (Star (CharClass cl)) as r eqn:Hr.
    induction Hm; try discriminate; [reflexivity|].
    injection Hr as ->. inversion Hm1; subst.
    change (design.allOf (inClass cl) (String c s2) = true). simpl.
    rewrite IHHm2 by reflexivity. rewrite andb_true_r. assumption.
  - induction s as [|c s IH]; simpl; intros Hall; [constructor|].
    apply andb_true_iff in Hall as [Hc Hs].
    apply (m_star_cons _ (String c "") s); [apply m_class, Hc | auto].
Qed.

(** The pattern of [validate] accepts exactly the well-formed names. *)
Lemma re_matches s :
  MatchString keystone.re s = true <-> design.wellFormedName s.
Proof.
  rewrite MatchString_matches. unfold keystone.re, design.wellFormedName. split.
  - intros Hm. inversion Hm as [| |r1 r2 s1 s2 H1 H2| | | |]; subst.
    inversion H1; subst.
    inversion H2 as [| |r1 r2 m l Hmid Hlast| | | |]; subst.
    inversion Hlast; subst.
    eexists _, m, _. split; [reflexivity|].
    split; [assumption|]. split; [apply star_class_matches, Hmid | assumption].
  - intros (first & middle & last & -> & Hf & Hm & Hl).
    apply (m_concat _ _ (String first "") (middle +:+ String last "")).
    + apply m_class, Hf.
    + apply m_concat; [apply star_class_matches, Hm | apply m_class, Hl].
Qed.

End RegexpFacts.

(** ** Substrings and the last occurrence of a byte *)

Section SubstringFacts.

Lemma Contains_spec s p :
  strings.Contains s p = true <-> exists l r, s = l +:+ p +:+ r.
Proof.
  induction s as [|c s IH].
  - simpl. rewrite orb_false_r, HasPrefix_spec. split.
    + intros [r Hr]. exists "", r. exact Hr.
    + intros (l & r & Hs). symmetry in Hs.
      apply app_eq_empty in Hs as [-> Hs]. exists r. symmetry. exact Hs.
  - cbn [strings.Contains]. rewrite orb_true_iff, HasPrefix_spec, IH. split.
    + intros [[r Hr]|(l & r & ->)].
      * exists "", r. exact Hr.
      * exists (String c l), r. reflexivity.
    + intros (l & r & Hs). destruct l as [|a l].
      * left. exists r. exact Hs.
      * right. rewrite app_cons in Hs. injection Hs as _ ->.
        exists l, r. reflexivity.
Qed.

Lemma Contains_byte_cons c x s :
  strings.Contains (String x s) (String c "") = false
  <-> x <> c /\ strings.Contains s (String c "") = false.
Proof.
  cbn [strings.Contains strings.HasPrefix]. rewrite andb_true_r, orb_false_iff.
  destruct (Ascii.eqb_spec c x) as [->|Hne]; split.
  - intros [? _]; discriminate.
  - intros [Hx _]. contradiction.
  - intros [_ Hs]. split; [congruence | exact Hs].
  - intros [_ Hs]. split; [reflexivity | exact Hs].
Qed.

(** [LastIndexByte] finds the last occurrence: the byte is at the index it
    returns and nowhere after it; [-1] means that the byte is nowhere. *)
Lemma LastIndexByte_spec s c :
  (strings.LastIndexByte s c = (-1)%Z
   /\ strings.Contains s (String c "") = false)
  \/ (exists n,
        strings.LastIndexByte s c = Z.of_nat n
        /\ s = strings.sliceTo s n +:+ String c (strings.sliceFrom s (S n))
        /\ String.length (strings.sliceTo s n) = n
        /\ strings.Contains (strings.sliceFrom s (S n)) (String c "") = false).
Proof.
  induction s as [|x s IH].
  - left. split; reflexivity.
  - cbn [strings.LastIndexByte].
    destruct IH as [[Hi Hno]|(n & Hi & Hs & Hlen & Hno)]; rewrite Hi.
    + cbn [Z.leb Z.compare].
      destruct (Ascii.eqb_spec x c) as [->|Hne].
      * right. exists 0. repeat split. exact Hno.
      * left. split; [reflexivity|]. apply Contains_byte_cons. split; assumption.
    + right. exists (S n).
      destruct (Z.leb_spec 0 (Z.of_nat n)) as [_|Hneg]; [|lia].
      split; [lia|].
      change (strings.sliceTo (String x s) (S n)) with (String x (strings.sliceTo s n)).
      change (strings.sliceFrom (String x s) (S (S n))) with (strings.sliceFrom s (S n)).
      rewrite app_cons, <- Hs. simpl. rewrite Hlen. repeat split. exact Hno.
Qed.

(** The decomposition at the last occurrence is unique. *)
Lemma last_occurrence_unique c a1 l1 a2 l2 :
  a1 +:+ String c l1 = a2 +:+ String c l2 ->
  strings.Contains l1 (String c "") = false ->
  strings.Contains l2 (String c "") = false ->
  a1 = a2 /\ l1 = l2.
Proof.
  revert a2. induction a1 as [|x a1 IH]; intros a2 Heq H1 H2.
  - destruct a2 as [|y a2].
    + rewrite !app_empty_l in Heq. injection Heq as ->. split; reflexivity.
    + rewrite app_empty_l, app_cons in Heq. injection Heq as <- ->.
      exfalso.
      assert (Hin : strings.Contains (a2 +:+ String c l2) (String c "") = true).
      { apply Contains_spec. exists a2, l2. reflexivity. }
      rewrite H1 in Hin. discriminate.
  - destruct a2 as [|y a2].
    + rewrite app_empty_l, app_cons in Heq. injection Heq as -> <-.
      exfalso.
      assert (Hin : strings.Contains (a1 +:+ String c l1) (String c "") = true).
      { apply Contains_spec. exists a1, l1. reflexivity. }
      rewrite H2 in Hin. discriminate.
    + rewrite !app_cons in Heq. injection Heq as -> Heq.
      destruct (IH a2 Heq H1 H2) as [-> ->]. split; reflexivity.
Qed.

End SubstringFacts.

(** ** [keystone]: validation and rendering of namespace names *)

Section KeystoneFacts.

Import keystone.

Lemma flag_spec allowed dt : flag allowed dt = true <-> dt ∈ allowed.
Proof.
  induction allowed as [|a allowed IH]; simpl.
  - split; [discriminate | intros H; inversion H].
  - rewrite elem_of_cons. destruct (String.eqb_spec a dt) as [->|Hne].
    + split; [left; reflexivity | reflexivity].
    + rewrite IH. split; [right; assumption | intros [->|H]; [contradiction|exact H]].
Qed.

Lemma checkDataTypes_None dts :
  checkDataTypes dts = None <-> forall dt, dt ∈ dts -> dt ∈ allowedDataTypesToSync.
Proof.
  induction dts as [|d dts IH]; cbn [checkDataTypes].
  - split; [intros _ dt H; inversion H | reflexivity].
  - destruct (flag allowedDataTypesToSync d) eqn:Hf; cbn [negb].
    + rewrite IH. split.
      * intros Hall dt [->|Hin]%elem_of_cons; [apply flag_spec, Hf | auto].
      * intros Hall dt Hin. apply Hall. right. exact Hin.
    + split; [discriminate|]. intros Hall. exfalso.
      assert (Hd : d ∈ allowedDataTypesToSync) by (apply Hall; left).
      apply flag_spec in Hd. rewrite Hd in Hf. discriminate.
Qed.

Lemma checkDataTypes_first pre dt post :
  (forall x, x ∈ pre -> x ∈ allowedDataTypesToSync) ->
  dt ∉ allowedDataTypesToSync ->
  checkDataTypes (pre ++ dt :: post) = Some (unsupportedDataType dt).
Proof.
  intros Hpre Hdt. induction pre as [|p pre IH]; cbn [app checkDataTypes].
  - destruct (flag allowedDataTypesToSync dt) eqn:Hf; [|reflexivity].
    apply flag_spec in Hf. contradiction.
  - assert (Hp : flag allowedDataTypesToSync p = true) by (apply flag_spec, Hpre; left).
    rewrite Hp. cbn [negb]. apply IH. intros x Hx. apply Hpre. right. exact Hx.
Qed.

Lemma testString_render format :
  testString format = design.render "aa" "aa" "aa" format.
Proof.
  unfold testString. apply chained_is_render; [reflexivity | reflexivity |].
  right. repeat split; discriminate.
Qed.

(** C3.  [validate] succeeds exactly when the template contains [%i], the
    template with [aa] put for each of [%i], [%n], [%d] matches the
    pattern, and every data type to sync is in the allow-list, which is
    [projects] alone.  The test string the code builds by three chained
    passes is that template.  Without [%i] in the template [validate]
    fails, whatever else the configuration holds; and the first data type
    outside the allow-list is reported by an error whose message lists
    the allowed values. *)
Theorem validate_iff (sc : syncConfig) :
  allowedDataTypesToSync = ["projects"]
  /\ testString (NamespaceFormat sc) = design.render "aa" "aa" "aa" (NamespaceFormat sc)
  /\ (validate sc = None <->
      (exists l r, NamespaceFormat sc = l +:+ "%i" +:+ r)
      /\ regexp.matches re (design.render "aa" "aa" "aa" (NamespaceFormat sc))
      /\ (forall dt, dt ∈ DataTypesToSync sc -> dt ∈ allowedDataTypesToSync))
  /\ ((~ exists l r, NamespaceFormat sc = l +:+ "%i" +:+ r) ->
      validate sc = Some errNoProjectID)
  /\ (forall pre dt post,
        (exists l r, NamespaceFormat sc = l +:+ "%i" +:+ r) ->
        regexp.matches re (design.render "aa" "aa" "aa" (NamespaceFormat sc)) ->
        DataTypesToSync sc = pre ++ dt :: post ->
        (forall x, x ∈ pre -> x ∈ allowedDataTypesToSync) ->
        dt ∉ allowedDataTypesToSync ->
        validate sc = Some (unsupportedDataType dt)
        /\ Error (unsupportedDataType dt)
           = "Unsupported data type to sync: " +:+ dt +:+ ". Available values: projects").
Proof.
  split; [reflexivity|]. split; [apply testString_render|].
  unfold validate. rewrite testString_render.
  destruct (strings.Contains (NamespaceFormat sc) "%i") eqn:Hc; simpl.
  - apply Contains_spec in Hc.
    destruct (regexp.MatchString re
                (design.render "aa" "aa" "aa" (NamespaceFormat sc))) eqn:Hm; simpl.
    + apply MatchString_matches in Hm. repeat split.
      * exact Hc.
      * exact Hm.
      * apply checkDataTypes_None. assumption.
      * intros (_ & _ & Hall). apply checkDataTypes_None, Hall.
      * intros Hno. contradiction.
      * rewrite H1. apply checkDataTypes_first; assumption.
    + assert (Hnm : ~ regexp.matches re
                      (design.render "aa" "aa" "aa" (NamespaceFormat sc))).
      { intros H%MatchString_matches. rewrite H in Hm. discriminate. }
      repeat split; try discriminate.
      * intros (_ & H & _). contradiction.
      * intros Hno. contradiction.
      * contradiction.
  - assert (Hno : ~ exists l r, NamespaceFormat sc = l +:+ "%i" +:+ r).
    { intros H%Contains_spec. rewrite H in Hc. discriminate. }
    repeat split; try discriminate.
    + intros (H & _). contradiction.
    + contradiction.
Qed.

Lemma validate_iff_witness :
  validate {| DataTypesToSync := ["projects"; "roles"];
              NamespaceFormat := "%i-%n.%d";
              ProjectBlackList := [] |}
  = Some (unsupportedDataType "roles")
  /\ Error (unsupportedDataType "roles")
     = "Unsupported data type to sync: roles. Available values: projects".
Proof.
  pose proof (validate_iff {| DataTypesToSync := ["projects"; "roles"];
                              NamespaceFormat := "%i-%n.%d";
                              ProjectBlackList := [] |}) as (_ & _ & _ & _ & H).
  apply (H ["projects"] "roles" []).
  - exists "", "-%n.%d". reflexivity.
  - apply MatchString_matches. reflexivity.
  - reflexivity.
  - intros x Hx. exact Hx.
  - unfold allowedDataTypesToSync. intros Hin.
    apply list_elem_of_singleton in Hin. discriminate.
Defined.



(** *** Templates that pass [validate] hold no [%%] *)

Lemma Contains_cons_true c s p :
  strings.Contains s p = true -> strings.Contains (String c s) p = true.
Proof. intros H. cbn [strings.Contains]. rewrite H. apply orb_true_r. Qed.

Lemma Contains_app_true x s p :
  strings.Contains s p = true -> strings.Contains (x +:+ s) p = true.
Proof.
  intros H. induction x as [|c x IH]; [exact H|].
  rewrite app_cons. apply Contains_cons_true, IH.
Qed.

Lemma inner_not_percent c : regexp.inClass inner c = true -> c <> "%"%char.
Proof. intros H ->. discriminate H. Qed.

Lemma alnum_not_percent c : regexp.inClass alnum c = true -> c <> "%"%char.
Proof. intros H ->. discriminate H. Qed.

Lemma wellFormedName_no_percent s :
  design.wellFormedName s -> strings.Contains s "%" = false.
Proof.
  intros (first & middle & last & -> & Hf & Hm & Hl).
  apply Contains_byte_cons. split; [apply alnum_not_percent, Hf|].
  induction middle as [|c middle IH].
  - rewrite app_empty_l. apply Contains_byte_cons.
    split; [apply alnum_not_percent, Hl | reflexivity].
  - simpl in Hm. apply andb_true_iff in Hm as [Hc Hm].
    rewrite app_cons. apply Contains_byte_cons.
    split; [apply inner_not_percent, Hc | apply IH, Hm].
Qed.

(** The first [%] of a [%%] is no part of a placeholder: it is rendered as
    it is. *)
Lemma render_keeps_percent id name domain n : forall t,
  String.length t <= n ->
  strings.Contains t "%%" = true ->
  strings.Contains (design.render id name domain t) "%" = true.
Proof.
  induction n as [|n IH]; intros t Hlen Hc.
  { destruct t; [discriminate Hc | simpl in Hlen; lia]. }
  destruct t as [|c t]; [discriminate Hc|]. simpl in Hlen.
  destruct (Ascii.eqb_spec c "%") as [->|Hne].
  2:{ rewrite render_other by exact Hne. apply Contains_cons_true, IH; [lia|].
      cbn [strings.Contains strings.HasPrefix] in Hc.
      destruct (Ascii.eqb_spec "%" c) as [<-|_]; [contradiction|]. exact Hc. }
  destruct t as [|d t]; [discriminate Hc|]. simpl in Hlen.
  assert (Hrest : d <> "%"%char -> strings.Contains t "%%" = true).
  { intros Hd. cbn [strings.Contains strings.HasPrefix] in Hc.
    destruct (Ascii.eqb_spec "%" d) as [<-|_]; [contradiction|].
    simpl in Hc. exact Hc. }
  cbn [design.render]. rewrite Ascii.eqb_refl.
  destruct (Ascii.eqb_spec d "i") as [->|_].
  { apply Contains_app_true, IH; [lia|]. apply Hrest. discriminate. }
  destruct (Ascii.eqb_spec d "n") as [->|_].
  { apply Contains_app_true, IH; [lia|]. apply Hrest. discriminate. }
  destruct (Ascii.eqb_spec d "d") as [->|_].
  { apply Contains_app_true, IH; [lia|]. apply Hrest. discriminate. }
  reflexivity.
Qed.

Lemma validate_no_double_percent sc :
  validate sc = None -> strings.Contains (NamespaceFormat sc) "%%" = false.
Proof.
  unfold validate. rewrite testString_render.
  destruct (strings.Contains (NamespaceFormat sc) "%i"); [|discriminate]. simpl.
  destruct (regexp.MatchString re _) eqn:Hm; [|discriminate]. intros _.
  apply re_matches, wellFormedName_no_percent in Hm.
  destruct (strings.Contains (NamespaceFormat sc) "%%") eqn:Hc; [|reflexivity].
  rewrite (render_keeps_percent "aa" "aa" "aa" _ _ (Nat.le_refl _) Hc) in Hm.
  discriminate.
Qed.

(** C1, as the code has it.  The substituted string is built by three
    chained passes, [%i] first, then [%n] over that result, then [%d] over
    that one; with the default template the later passes therefore run
    over the id itself.  When [id] and [name] hold no [%] and the
    template holds no [%%] (no template that passes [validate] does), the
    passes replace exactly the placeholders of the template, all of them,
    and what is returned is that rendering or, past 63 bytes, [id]. *)
Theorem formatNamespaceName_render (sc : syncConfig) (id name domain : string) :
  substituted sc id name domain
  = strings.Replace
      (strings.Replace (strings.Replace (NamespaceFormat sc) "%i" id) "%n" name)
      "%d" domain
  /\ (NamespaceFormat sc = "%i" ->
      substituted sc id name domain
      = strings.Replace (strings.Replace id "%n" name) "%d" domain)
  /\ (validate sc = None -> strings.Contains (NamespaceFormat sc) "%%" = false)
  /\ (strings.Contains id "%" = false ->
      strings.Contains name "%" = false ->
      strings.Contains (NamespaceFormat sc) "%%" = false ->
      substituted sc id name domain = design.render id name domain (NamespaceFormat sc)
      /\ fst (formatNamespaceName sc id name domain)
         = if 63 <? String.length (design.render id name domain (NamespaceFormat sc))
           then id
           else design.render id name domain (NamespaceFormat sc)).
Proof.
  split; [reflexivity|]. split; [|split; [apply validate_no_double_percent|]].
  - intros Hf. unfold substituted. rewrite Hf.
    rewrite (Replace2_hit "%" "i" "" id), Replace_empty, app_empty_r. reflexivity.
  - intros Hid Hname Htemplate.
    assert (Hs : substituted sc id name domain
                 = design.render id name domain (NamespaceFormat sc)).
    { unfold substituted. apply chained_is_render; auto. }
    split; [exact Hs|].
    unfold formatNamespaceName. rewrite Hs.
    destruct (63 <? String.length (design.render id name domain (NamespaceFormat sc)));
      reflexivity.
Qed.

Lemma formatNamespaceName_render_witness :
  fst (formatNamespaceName
         {| DataTypesToSync := allowedDataTypesToSync;
            NamespaceFormat := "%n-%i.%d-%i";
            ProjectBlackList := [] |}
         "0af1" "web" "%i")
  = "web-0af1.%i-0af1".
Proof.
  pose proof (formatNamespaceName_render
                {| DataTypesToSync := allowedDataTypesToSync;
                   NamespaceFormat := "%n-%i.%d-%i";
                   ProjectBlackList := [] |}
                "0af1" "web" "%i") as (_ & _ & _ & H).
  destruct H as [_ H]; [reflexivity | reflexivity | reflexivity |].
  rewrite H. reflexivity.
Defined.

(** C1, as stated, fails: a [%n] brought in by the id is replaced by the
    name in the second pass. *)
Lemma formatNamespaceName_resubstitutes :
  fst (formatNamespaceName newSyncConfig "%n" "web" "default") = "web"
  /\ design.render "%n" "web" "default" (NamespaceFormat newSyncConfig) = "%n"
  /\ fst (formatNamespaceName newSyncConfig "%n" "web" "default")
     <> design.render "%n" "web" "default" (NamespaceFormat newSyncConfig).
Proof. repeat split. discriminate. Qed.

(** *** Loading a configuration *)

Lemma setField_get sc key v sc' f :
  setField sc key v = inl sc' ->
  design.get f sc' = if String.eqb key (design.tag f) then v else design.get f sc.
Proof.
  unfold setField.
  destruct (String.eqb_spec key "data_types_to_sync") as [->|H1].
  { destruct v; [discriminate|]. intros [= <-]. destruct f; reflexivity. }
  destruct (String.eqb_spec key "namespace_format") as [->|H2].
  { destruct v; [|discriminate]. intros [= <-]. destruct f; reflexivity. }
  destruct (String.eqb_spec key "projects_black_list") as [->|H3].
  { destruct v; [discriminate|]. intros [= <-]. destruct f; reflexivity. }
  intros [= <-].
  destruct f; simpl;
    match goal with
    | |- context [String.eqb key ?t] =>
        destruct (String.eqb_spec key t); [contradiction | reflexivity]
    end.
Qed.

(** Overlay semantics: a field of the result is the value the document
    gives it when the field is present, and the value it had before when
    it is absent. *)
Lemma overlay_get doc : forall sc sc' f,
  overlay doc sc = inl sc' ->
  design.get f sc' = default (design.get f sc) (design.present (design.tag f) doc).
Proof.
  induction doc as [|[k v] doc IH]; intros sc sc' f; cbn [overlay design.present].
  - intros [= <-]. reflexivity.
  - destruct (setField sc k v) as [sc1|err] eqn:Hset; [|discriminate].
    intros Hov. rewrite (IH _ _ f Hov).
    destruct (design.present (design.tag f) doc); [reflexivity|].
    rewrite (setField_get _ _ _ _ f Hset).
    destruct (String.eqb k (design.tag f)); reflexivity.
Qed.

(** C6.  The defaults are the template [%i], the whole allow-list and no
    excluded project.  Loading starts from them and lays the document's
    fields over them: the empty document gives the defaults back, a
    document that only sets [namespace_format] changes that field alone,
    and in general each field is the document's when present there and
    the default when absent. *)
Theorem newSyncConfigFromFile_overlay
    (ReadFile : string -> string + error) (parse : string -> yaml.document + error)
    (path yamlFile : string) (doc : yaml.document) :
  (NamespaceFormat newSyncConfig = "%i"
   /\ DataTypesToSync newSyncConfig = allowedDataTypesToSync
   /\ allowedDataTypesToSync = ["projects"]
   /\ ProjectBlackList newSyncConfig = [])
  /\ (ReadFile path = inl yamlFile ->
      parse yamlFile = inl doc ->
      (doc = [] ->
       newSyncConfigFromFile ReadFile parse path = ((Some newSyncConfig, None), []))
      /\ (forall format, doc = [("namespace_format", yaml.Scalar format)] ->
          newSyncConfigFromFile ReadFile parse path
          = ((Some {| DataTypesToSync := DataTypesToSync newSyncConfig;
                      NamespaceFormat := format;
                      ProjectBlackList := ProjectBlackList newSyncConfig |}, None), []))
      /\ (forall sc, overlay doc newSyncConfig = inl sc ->
          newSyncConfigFromFile ReadFile parse path = ((Some sc, None), [])
          /\ forall f, design.get f sc
                       = default (design.get f newSyncConfig)
                                 (design.present (design.tag f) doc))
      /\ (forall err, overlay doc newSyncConfig = inr err ->
          fst (newSyncConfigFromFile ReadFile parse path) = (None, Some err))).
Proof.
  split; [repeat split|]. intros Hread Hparse.
  unfold newSyncConfigFromFile, Unmarshal. rewrite Hread, Hparse.
  split; [intros ->; reflexivity|].
  split; [intros format ->; reflexivity|].
  split.
  - intros sc Hov. rewrite Hov. split; [reflexivity|].
    intros f. apply overlay_get, Hov.
  - intros err Hov. rewrite Hov. reflexivity.
Qed.

Lemma newSyncConfigFromFile_overlay_witness :
  newSyncConfigFromFile
    (fun _ => inl "namespace_format: '%n.%i'")
    (fun _ => inl [("namespace_format", yaml.Scalar "%n.%i")])
    "/etc/config/sync.yaml"
  = ((Some {| DataTypesToSync := ["projects"];
              NamespaceFormat := "%n.%i";
              ProjectBlackList := [] |}, None), []).
Proof.
  pose proof (newSyncConfigFromFile_overlay
                (fun _ => inl "namespace_format: '%n.%i'")
                (fun _ => inl [("namespace_format", yaml.Scalar "%n.%i")])
                "/etc/config/sync.yaml" "namespace_format: '%n.%i'"
                [("namespace_format", yaml.Scalar "%n.%i")]) as [_ H].
  destruct H as (_ & H & _); [reflexivity | reflexivity |].
  apply (H "%n.%i"). reflexivity.
Defined.

End KeystoneFacts.

(** ** [sharebackends]: export locations, secrets and access rights *)

Section WaitForFacts.

Import gophercloud.

Lemma andThen_nothing_r d : andThen d nothing = d.
Proof.
  destruct d as [t l]. unfold andThen, nothing. simpl.
  rewrite Nat.add_0_r, app_nil_r. reflexivity.
Qed.

(** One turn of the loop of [WaitFor]. *)
Lemma WaitFor_loop_turn {S} timeout (check : S -> M ((bool * option error) * S))
    acc s w :
  WaitFor_loop timeout check acc s w
  = if lt_dec (elapsed acc) timeout
    then match poll check s (after w (andThen acc sleep)) with
         | Return err s' d => ((err, s'), andThen (andThen acc sleep) d)
         | Continue s' d =>
             WaitFor_loop timeout check (andThen (andThen acc sleep) d) s' w
         end
    else ((Some ErrTimeout, s), acc).
Proof.
  rewrite WaitFor_loop_equation_1.
  destruct (lt_dec (elapsed acc) timeout); simpl; [|reflexivity].
  destruct (poll check s (after w (andThen acc sleep))); reflexivity.
Qed.

End WaitForFacts.

Section AwaitFacts.

Import gophercloud sharebackends.

Lemma classify_NotYetReady answer :
  design.classify answer = design.NotYetReady <-> design.notYetReady answer.
Proof.
  unfold design.notYetReady. split.
  - destruct answer as [[|r [|r2 rest]]|e]; simpl; try discriminate.
    + left. reflexivity.
    + destruct (String.eqb_spec (shares.AccessKey r) "") as [He|_]; [|discriminate].
      right. exists r. split; [reflexivity | exact He].
  - intros [->|(r & -> & He)]; simpl; [reflexivity|].
    rewrite He. reflexivity.
Qed.

Variable args : GrantAccessArgs.

Let shareID := shares.ID (Share args).

Let accessOpts : shares.GrantAccessOpts :=
  {| shares.optAccessType := "cephx";
     shares.optAccessTo := shares.Name (Share args);
     shares.optAccessLevel := "rw" |}.

(** The closure, poll by poll: what it does is what the answer means. *)
Lemma poll_awaitAccessKey s w :
  poll (awaitAccessKey args) s w
  = let d := {| elapsed := fst (listAccessRights (Client args) w shareID);
                issued := [shares.ListAccessRightsRequest shareID] |} in
    match design.classify (snd (listAccessRights (Client args) w shareID)) with
    | design.Abort e => Return (Some e) s d
    | design.NotYetReady => Continue s d
    | design.Ready r => Return None r d
    | design.Inconsistent n => Return (Some (errUnexpectedAccessRules n)) s d
    end.
Proof.
  unfold poll, awaitAccessKey, bind, ListAccessRights, shareID.
  destruct (listAccessRights (Client args) w (shares.ID (Share args))) as [dt [l|e]];
    cbn [fst snd].
  - destruct l as [|r1 [|r2 rest]]; cbn [length Nat.ltb Nat.leb design.classify].
    + unfold ret. rewrite andThen_nothing_r. reflexivity.
    + destruct (String.eqb (shares.AccessKey r1) ""); unfold ret; cbn [negb];
        rewrite andThen_nothing_r; reflexivity.
    + unfold ret. rewrite andThen_nothing_r. reflexivity.
  - unfold ret. rewrite andThen_nothing_r. reflexivity.
Qed.

Variable w : World.

(** The loop at the start of round [k], when the rounds before it were
    pending. *)
Lemma WaitFor_loop_pending budget k :
  design.pending args w budget k ->
  WaitFor_loop budget (awaitAccessKey args) nothing shares.zeroAccessRight w
  = WaitFor_loop budget (awaitAccessKey args) (design.before args w k)
      shares.zeroAccessRight w.
Proof.
  induction k as [|k IH]; intros Hp; [reflexivity|].
  rewrite IH by (intros j Hj; apply Hp; lia).
  destruct (Hp k) as [Hlt Hk]; [lia|]. apply classify_NotYetReady in Hk.
  rewrite WaitFor_loop_turn.
  destruct (lt_dec (elapsed (design.before args w k)) budget) as [_|Hge]; [|contradiction].
  rewrite poll_awaitAccessKey. cbv zeta.
  unfold design.answer in Hk. fold shareID in Hk. rewrite Hk.
  reflexivity.
Qed.

(** The outcome of the wait, read off the round that ends it. *)
Lemma WaitFor_outcome budget k :
  design.pending args w budget k ->
  (budget <= elapsed (design.before args w k) ->
   WaitFor budget (awaitAccessKey args) shares.zeroAccessRight w
   = ((Some ErrTimeout, shares.zeroAccessRight), design.before args w k))
  /\ (elapsed (design.before args w k) < budget ->
      match design.classify (design.answer args w k) with
      | design.Abort e =>
          WaitFor budget (awaitAccessKey args) shares.zeroAccessRight w
          = ((Some e, shares.zeroAccessRight), design.before args w (S k))
      | design.NotYetReady => design.pending args w budget (S k)
      | design.Ready r =>
          WaitFor budget (awaitAccessKey args) shares.zeroAccessRight w
          = ((None, r), design.before args w (S k))
      | design.Inconsistent n =>
          WaitFor budget (awaitAccessKey args) shares.zeroAccessRight w
          = ((Some (errUnexpectedAccessRules n), shares.zeroAccessRight),
             design.before args w (S k))
      end).
Proof.
  intros Hp. unfold WaitFor. rewrite (WaitFor_loop_pending budget k Hp).
  rewrite WaitFor_loop_turn. split; intros Hk.
  - destruct (lt_dec (elapsed (design.before args w k)) budget); [lia | reflexivity].
  - destruct (lt_dec (elapsed (design.before args w k)) budget) as [_|?]; [|contradiction].
    rewrite poll_awaitAccessKey. cbv zeta.
    unfold design.answer. fold shareID.
    destruct (design.classify _) eqn:Hc; try reflexivity.
    intros j Hj. destruct (Nat.eq_dec j k) as [->|Hne].
    + split; [exact Hk|]. apply classify_NotYetReady.
      unfold design.answer. fold shareID. exact Hc.
    + apply Hp. lia.
Qed.

(** An error at the end of the wait: the captured variable was never
    assigned. *)
Lemma WaitFor_loop_error budget n : forall acc err s' d,
  budget - elapsed acc <= n ->
  WaitFor_loop budget (awaitAccessKey args) acc shares.zeroAccessRight w
  = ((Some err, s'), d) ->
  s' = shares.zeroAccessRight.
Proof.
  induction n as [|n IH]; intros acc err s' d Hn; rewrite WaitFor_loop_turn;
    destruct (lt_dec (elapsed acc) budget) as [Hlt|Hge];
    try (intros [= _ <- _]; reflexivity); [lia|].
  rewrite poll_awaitAccessKey. cbv zeta.
  destruct (design.classify _).
  - intros [= _ <- _]. reflexivity.
  - apply IH. simpl. lia.
  - discriminate.
  - intros [= _ <- _]. reflexivity.
Qed.

(** [grantAccessCephx] once the grant has gone through. *)
Lemma grantAccessCephx_granted w0 dt granted :
  grantAccess (Client args) w0 shareID accessOpts = (dt, inl granted) ->
  grantAccessCephx args w0
  = let g := {| elapsed := dt;
                issued := [shares.GrantAccessRequest shareID accessOpts] |} in
    let '((err, accessRight), d) :=
      WaitFor 120 (awaitAccessKey args) shares.zeroAccessRight (after w0 g) in
    ((Some accessRight, err), andThen g d).
Proof.
  intros Hg. unfold grantAccessCephx, bind at 1, GrantAccess.
  fold shareID. fold accessOpts. rewrite Hg. cbv zeta.
  unfold bind, ret.
  destruct (WaitFor 120 _ _ _) as [[err accessRight] d].
  rewrite andThen_nothing_r. reflexivity.
Qed.

(** Every wait is decided: after at most 120 pending rounds either the
    budget has elapsed or a poll within the budget is not "not yet
    ready". *)
Lemma await_is_decided :
  exists k, k <= 120
    /\ design.pending args w 120 k
    /\ (120 <= elapsed (design.before args w k)
        \/ (elapsed (design.before args w k) < 120
            /\ ~ design.notYetReady (design.answer args w k))).
Proof.
  assert (Hstep : forall n,
            (exists k, k <= n
               /\ design.pending args w 120 k
               /\ (120 <= elapsed (design.before args w k)
                   \/ (elapsed (design.before args w k) < 120
                       /\ ~ design.notYetReady (design.answer args w k))))
            \/ (design.pending args w 120 n /\ n <= elapsed (design.before args w n))).
  { induction n as [|n [(k & Hk & Hdone)|[Hp Hn]]].
    - right. split; [intros j Hj; lia | simpl; lia].
    - left. exists k. split; [lia | exact Hdone].
    - destruct (le_lt_dec 120 (elapsed (design.before args w n))) as [Hout|Hin].
      { left. exists n. split; [lia|]. split; [exact Hp | left; exact Hout]. }
      destruct (design.classify (design.answer args w n)) eqn:Hc;
        try (left; exists n; split; [lia|]; split; [exact Hp|]; right;
             split; [exact Hin|]; intros Hny%classify_NotYetReady;
             rewrite Hny in Hc; discriminate).
      right. split.
      + intros j Hj. destruct (Nat.eq_dec j n) as [->|Hne]; [|apply Hp; lia].
        split; [exact Hin | apply classify_NotYetReady, Hc].
      + simpl. lia. }
  destruct (Hstep 120) as [Hdone|[Hp Hn]]; [exact Hdone|].
  exists 120. split; [lia|]. split; [exact Hp | left; exact Hn].
Qed.

End AwaitFacts.

Section SharebackendsFacts.

Import gophercloud sharebackends.

(** *** Export locations *)

(** Either there is no delimiter past position 0 and the split fails, or
    the path splits at its last colon. *)
Lemma splitExportLocation_cases (path : string) :
  ((strings.LastIndexByte path ":" <= 0)%Z
   /\ splitExportLocation {| shares.Path := path |}
      = ("", "", Some (errParseExportLocation path))
   /\ (strings.Contains path ":" = false
       \/ exists rest, path = String ":" rest /\ strings.Contains rest ":" = false))
  \/ (exists address location,
        strings.LastIndexByte path ":" = Z.of_nat (String.length address)
        /\ splitExportLocation {| shares.Path := path |} = (address, location, None)
        /\ path = address +:+ ":" +:+ location
        /\ address <> ""
        /\ strings.Contains location ":" = false).
Proof.
  unfold splitExportLocation. cbn [shares.Path].
  destruct (LastIndexByte_spec path ":") as [[Hi Hno]|(n & Hi & Hs & Hlen & Hno)];
    rewrite Hi.
  - left. repeat split; [lia | left; exact Hno].
  - destruct n as [|n].
    + left. repeat split; [lia|]. right.
      exists (strings.sliceFrom path 1). split; [exact Hs | exact Hno].
    + right. exists (strings.sliceTo path (S n)), (strings.sliceFrom path (S (S n))).
      rewrite Hlen. split; [reflexivity|].
      destruct (Z.leb_spec (Z.of_nat (S n)) 0) as [Hle|_]; [lia|].
      rewrite Nat2Z.id.
      replace (Z.to_nat (Z.of_nat (S n) + 1)) with (S (S n)) by lia.
      repeat split; [exact Hs | | exact Hno].
      intros He. rewrite He in Hlen. discriminate.
Qed.

(** C5.  [splitExportLocation] splits at the last colon: whenever the
    path is an address, a colon and a location without colon, with the
    address not empty, those two parts are returned.  It fails, with the
    parse error and empty parts, exactly when the last colon is not at a
    position greater than 0, that is when the path has no colon or its
    only colon is its first byte. *)
Theorem splitExportLocation_last_colon (path : string) :
  (forall address location,
      path = address +:+ ":" +:+ location ->
      address <> "" ->
      strings.Contains location ":" = false ->
      splitExportLocation {| shares.Path := path |} = (address, location, None))
  /\ ((strings.LastIndexByte path ":" <= 0)%Z <->
      splitExportLocation {| shares.Path := path |}
      = ("", "", Some (errParseExportLocation path)))
  /\ ((strings.LastIndexByte path ":" <= 0)%Z <->
      (strings.Contains path ":" = false
       \/ exists rest, path = String ":" rest /\ strings.Contains rest ":" = false))
  /\ ((0 < strings.LastIndexByte path ":")%Z <->
      exists address location,
        splitExportLocation {| shares.Path := path |} = (address, location, None))
  /\ splitExportLocation {| shares.Path := "10.0.0.1:2049,10.0.0.2:2049:/vol/share1" |}
     = ("10.0.0.1:2049,10.0.0.2:2049", "/vol/share1", None).
Proof.
  destruct (splitExportLocation_cases path)
    as [(Hi & Hfail & Hwhy)|(a & l & Hi & Hok & Hpath & Ha & Hl)].
  - repeat split; try tauto; try lia.
    + intros address location Hp Hne Hloc. exfalso.
      destruct address as [|c address]; [contradiction|].
      destruct Hwhy as [Hno|(rest & Hrest & Hno)].
      * assert (Hin : strings.Contains path ":" = true).
        { apply Contains_spec. exists (String c address), location. exact Hp. }
        rewrite Hin in Hno. discriminate.
      * rewrite Hp, app_cons in Hrest. injection Hrest as -> <-.
        assert (Hin : strings.Contains (address +:+ ":" +:+ location) ":" = true).
        { apply Contains_spec. exists address, location. reflexivity. }
        rewrite Hin in Hno. discriminate.
    + rewrite Hfail. intros (address & location & [=]).
  - assert (Hpos : (0 < strings.LastIndexByte path ":")%Z).
    { rewrite Hi. destruct a; [contradiction | simpl; lia]. }
    repeat split; try lia.
    + intros address location Hp Hne Hloc. rewrite Hok.
      rewrite Hpath in Hp.
      destruct (last_occurrence_unique ":" a l address location Hp Hl Hloc) as [-> ->].
      reflexivity.
    + rewrite Hok. discriminate.
    + intros [Hno|(rest & Hrest & Hno)].
      * assert (Hin : strings.Contains path ":" = true).
        { apply Contains_spec. exists a, l. exact Hpath. }
        rewrite Hin in Hno. discriminate.
      * destruct a as [|c a]; [contradiction|].
        rewrite Hpath, app_cons in Hrest. injection Hrest as -> <-.
        assert (Hin : strings.Contains (a +:+ ":" +:+ l) ":" = true).
        { apply Contains_spec. exists a, l. reflexivity. }
        rewrite Hin in Hno. discriminate.
    + exists a, l. exact Hok.
Qed.

Lemma splitExportLocation_last_colon_witness :
  splitExportLocation {| shares.Path := "[fd00::1]:6789,[fd00::2]:6789:/volumes/_nogroup/7f" |}
  = ("[fd00::1]:6789,[fd00::2]:6789", "/volumes/_nogroup/7f", None).
Proof.
  apply (proj1 (splitExportLocation_last_colon
                  "[fd00::1]:6789,[fd00::2]:6789:/volumes/_nogroup/7f")).
  - reflexivity.
  - discriminate.
  - reflexivity.
Defined.

(** C9.  A split that succeeds loses nothing: the address is not empty,
    the location holds no colon, and address, colon and location put
    together are the path. *)
Theorem splitExportLocation_roundtrip (path address location : string) :
  splitExportLocation {| shares.Path := path |} = (address, location, None) ->
  address <> ""
  /\ strings.Contains location ":" = false
  /\ address +:+ ":" +:+ location = path.
Proof.
  intros Hsplit.
  destruct (splitExportLocation_cases path)
    as [(_ & Hfail & _)|(a & l & _ & Hok & Hpath & Ha & Hl)].
  - rewrite Hfail in Hsplit. discriminate.
  - rewrite Hok in Hsplit. injection Hsplit as <- <-.
    repeat split; [exact Ha | exact Hl | symmetry; exact Hpath].
Qed.

Lemma splitExportLocation_roundtrip_witness :
  splitExportLocation {| shares.Path := "10.0.0.1:2049,10.0.0.2:2049:/vol/share1" |}
  = ("10.0.0.1:2049,10.0.0.2:2049", "/vol/share1", None)
  /\ "10.0.0.1:2049,10.0.0.2:2049" <> ""
  /\ strings.Contains "/vol/share1" ":" = false
  /\ "10.0.0.1:2049,10.0.0.2:2049" +:+ ":" +:+ "/vol/share1"
     = "10.0.0.1:2049,10.0.0.2:2049:/vol/share1".
Proof.
  split; [reflexivity|].
  apply (splitExportLocation_roundtrip "10.0.0.1:2049,10.0.0.2:2049:/vol/share1").
  reflexivity.
Defined.

(** *** Secrets *)

(** C8.  The secret of a share is named [manila-] followed by the share
    id.  Whatever the cluster client, [createSecret] under that name hands
    the client a secret with that name and the given data and returns the
    client's error, or none when the client gave none; [deleteSecret]
    returns what the client's delete of that name returns.  With the
    store client, creating a secret that exists gives its already-exists
    error and deleting one that does not gives its not-found error. *)
Theorem secret_errors_verbatim {C : Type} `{kubernetes.Interface C}
    (shareID namespace : string) (cs : C) (data : gmap string (list Byte.byte))
    (st : kubernetes.store) :
  getSecretName shareID = "manila-" +:+ shareID
  /\ createSecret (getSecretName shareID) namespace cs data
     = (fst (kubernetes.Create cs namespace
               {| kubernetes.SecretName := "manila-" +:+ shareID;
                  kubernetes.Data := data |}),
        snd (snd (kubernetes.Create cs namespace
                    {| kubernetes.SecretName := "manila-" +:+ shareID;
                       kubernetes.Data := data |})))
  /\ deleteSecret (getSecretName shareID) namespace cs
     = kubernetes.Delete cs namespace ("manila-" +:+ shareID)
  /\ (is_Some (st !! (namespace, "manila-" +:+ shareID)) ->
      createSecret (getSecretName shareID) namespace st data
      = (st, Some (StatusError StatusReasonAlreadyExists
                     ("secrets manila-" +:+ shareID +:+ " already exists"))))
  /\ (st !! (namespace, "manila-" +:+ shareID) = None ->
      deleteSecret (getSecretName shareID) namespace st
      = (st, Some (StatusError StatusReasonNotFound
                     ("secrets manila-" +:+ shareID +:+ " not found")))).
Proof.
  split; [reflexivity|]. split.
  { unfold createSecret, getSecretName.
    destruct (kubernetes.Create cs namespace _) as [cs' [sec [err|]]]; reflexivity. }
  split; [reflexivity|]. split.
  - intros [sec Hsec].
    unfold createSecret, getSecretName. cbn [kubernetes.Create kubernetes.storeClient].
    unfold kubernetes.storeCreate. cbn [kubernetes.SecretName].
    rewrite Hsec. reflexivity.
  - intros Hnone.
    unfold deleteSecret, getSecretName. cbn [kubernetes.Delete kubernetes.storeClient].
    unfold kubernetes.storeDelete. rewrite Hnone. reflexivity.
Qed.

Lemma secret_errors_verbatim_witness :
  deleteSecret (getSecretName "5d0e") "default" (∅ : kubernetes.store)
  = (∅, Some (StatusError StatusReasonNotFound "secrets manila-5d0e not found")).
Proof.
  apply (proj2 (proj2 (proj2 (proj2
           (secret_errors_verbatim "5d0e" "default" (∅ : kubernetes.store) ∅ ∅))))).
  reflexivity.
Defined.

(** *** Access rights *)


Lemma grant_failure_run (args : GrantAccessArgs) (w : World)
    (dt : nat) (err : error) :
  grantAccess (Client args) w (shares.ID (Share args))
    {| shares.optAccessType := "cephx";
       shares.optAccessTo := shares.Name (Share args);
       shares.optAccessLevel := "rw" |}
  = (dt, inr err) ->
  grantAccessCephx args w = ((None, Some err), design.granting args dt).
Proof.
  intros Hg. unfold grantAccessCephx, bind, GrantAccess. rewrite Hg. unfold ret.
  rewrite andThen_nothing_r. reflexivity.
Qed.

(** C7.  When the grant fails, [grantAccessCephx] returns the nil pointer
    and that error, having sent the one grant request and nothing else:
    no second grant, no poll of the access rights. *)
Theorem grantAccessCephx_grant_fails (args : GrantAccessArgs) (w : World)
    (dt : nat) (err : error) :
  grantAccess (Client args) w (shares.ID (Share args))
    {| shares.optAccessType := "cephx";
       shares.optAccessTo := shares.Name (Share args);
       shares.optAccessLevel := "rw" |}
  = (dt, inr err) ->
  grantAccessCephx args w
  = ((None, Some err),
     {| elapsed := dt;
        issued := [shares.GrantAccessRequest (shares.ID (Share args))
                     {| shares.optAccessType := "cephx";
                        shares.optAccessTo := shares.Name (Share args);
                        shares.optAccessLevel := "rw" |}] |})
  /\ scripted.polls (issued (snd (grantAccessCephx args w))) = 0
  /\ length (issued (snd (grantAccessCephx args w))) = 1.
Proof.
  intros Hg. rewrite (grant_failure_run args w dt err Hg).
  repeat split.
Qed.

Lemma grantAccessCephx_grant_fails_witness :
  grantAccessCephx
    (scripted.args (scripted.client (2, inr (ErrUnexpectedResponseCode 409 "conflict"))
                      [] (0, inl [scripted.accessRight "AQD5"])))
    scripted.start
  = ((None, Some (ErrUnexpectedResponseCode 409 "conflict")),
     {| elapsed := 2;
        issued := [shares.GrantAccessRequest "5d0e"
                     {| shares.optAccessType := "cephx";
                        shares.optAccessTo := "pvc-1";
                        shares.optAccessLevel := "rw" |}] |}).
Proof.
  apply (grantAccessCephx_grant_fails
           (scripted.args (scripted.client
                             (2, inr (ErrUnexpectedResponseCode 409 "conflict"))
                             [] (0, inl [scripted.accessRight "AQD5"])))
           scripted.start 2 (ErrUnexpectedResponseCode 409 "conflict")).
  reflexivity.
Defined.




(** C10.  When the grant fails the pointer returned is nil.  When the
    grant goes through the pointer is never nil, and whenever an error
    comes with it (from a poll, from an inconsistency or from the
    timeout) it points to the zero value of [AccessRight]. *)
Theorem grantAccessCephx_error_pointer (args : GrantAccessArgs) (w : World) (dt : nat) :
  (forall err,
      grantAccess (Client args) w (shares.ID (Share args))
        {| shares.optAccessType := "cephx";
           shares.optAccessTo := shares.Name (Share args);
           shares.optAccessLevel := "rw" |}
      = (dt, inr err) ->
      fst (grantAccessCephx args w) = (None, Some err))
  /\ (forall granted,
        grantAccess (Client args) w (shares.ID (Share args))
          {| shares.optAccessType := "cephx";
             shares.optAccessTo := shares.Name (Share args);
             shares.optAccessLevel := "rw" |}
        = (dt, inl granted) ->
        (exists accessRight, fst (fst (grantAccessCephx args w)) = Some accessRight)
        /\ (forall err,
              snd (fst (grantAccessCephx args w)) = Some err ->
              fst (fst (grantAccessCephx args w)) = Some shares.zeroAccessRight)).
Proof.
  split.
  - intros err Hg.
    rewrite (grant_failure_run args w dt err Hg). reflexivity.
  - intros granted Hg.
    rewrite (grantAccessCephx_granted args w dt granted Hg). cbv zeta.
    destruct (WaitFor 120 _ _ _) as [[err accessRight] d] eqn:Hwait.
    cbn [fst snd]. split; [exists accessRight; reflexivity|].
    intros e ->. f_equal. unfold WaitFor in Hwait.
    eapply (WaitFor_loop_error args _ 120 120); [|exact Hwait]. lia.
Qed.

Lemma grantAccessCephx_error_pointer_witness :
  fst (fst (grantAccessCephx
              (scripted.args
                 (scripted.client (0, inl (scripted.accessRight "")) []
                    (0, inl [scripted.accessRight "AQD5"; scripted.accessRight "AQD6"])))
              scripted.start))
  = Some shares.zeroAccessRight.
Proof.
  apply (proj2 (grantAccessCephx_error_pointer
                  (scripted.args
                     (scripted.client (0, inl (scripted.accessRight "")) []
                        (0, inl [scripted.accessRight "AQD5";
                                 scripted.accessRight "AQD6"])))
                  scripted.start 0)
           (scripted.accessRight "") eq_refl)
    with (err := errUnexpectedAccessRules 2).
  reflexivity.
Defined.

End SharebackendsFacts.

(** * Further properties *)

(** ** Rendering, placeholder by placeholder *)

Lemma app_assoc_string (s t u : string) : (s +:+ t) +:+ u = s +:+ (t +:+ u).
Proof.
  induction s as [|c s IH]; [reflexivity|].
  rewrite !app_cons, IH. reflexivity.
Qed.

Lemma length_app_string (s t : string) :
  String.length (s +:+ t) = String.length s + String.length t.
Proof.
  induction s as [|c s IH]; [reflexivity|].
  rewrite app_cons. simpl. rewrite IH. reflexivity.
Qed.

Section RenderFacts.

Variables id name domain : string.

Local Abbreviation render := (design.render id name domain).

Lemma render_i t : render (String "%" (String "i" t)) = id +:+ render t.
Proof. reflexivity. Qed.

Lemma render_n t : render (String "%" (String "n" t)) = name +:+ render t.
Proof. reflexivity. Qed.

Lemma render_d t : render (String "%" (String "d" t)) = domain +:+ render t.
Proof. reflexivity. Qed.

(** Induction along the way a template is read: byte by byte, and two
    bytes at a placeholder. *)
Lemma template_ind (P : string -> Prop) :
  P "" ->
  (forall c t, c <> "%"%char -> P t -> P (String c t)) ->
  P "%" ->
  (forall t, P t -> P (String "%" (String "i" t))) ->
  (forall t, P t -> P (String "%" (String "n" t))) ->
  (forall t, P t -> P (String "%" (String "d" t))) ->
  (forall d t, d <> "i"%char -> d <> "n"%char -> d <> "d"%char ->
               P (String d t) -> P (String "%" (String d t))) ->
  forall t, P t.
Proof.
  intros Hnil Hother Hlast Hi Hn Hd Hlit t.
  assert (H : forall n t, String.length t <= n -> P t).
  { clear t. induction n as [|n IH]; intros t Hlen.
    { destruct t; [exact Hnil | simpl in Hlen; lia]. }
    destruct t as [|c t]; [exact Hnil|]. simpl in Hlen.
    destruct (Ascii.eqb_spec c "%") as [->|Hc].
    2:{ apply Hother; [exact Hc | apply IH; lia]. }
    destruct t as [|d t]; [exact Hlast|]. simpl in Hlen.
    destruct (Ascii.eqb_spec d "i") as [->|Hdi]; [apply Hi, IH; lia|].
    destruct (Ascii.eqb_spec d "n") as [->|Hdn]; [apply Hn, IH; lia|].
    destruct (Ascii.eqb_spec d "d") as [->|Hdd]; [apply Hd, IH; lia|].
    apply Hlit; try assumption. apply IH. simpl. lia. }
  apply (H (String.length t)). lia.
Qed.

(** Where the template holds [%i], the rendering holds the id. *)
Lemma render_holds_id t :
  strings.Contains t "%i" = true -> exists l r, render t = l +:+ id +:+ r.
Proof.
  induction t as [|c t Hc IH| |t IH|t IH|t IH|d t Hdi Hdn Hdd IH] using template_ind;
    intros Hin.
  - discriminate Hin.
  - rewrite render_other by exact Hc.
    cbn [strings.Contains strings.HasPrefix] in Hin.
    destruct (Ascii.eqb_spec "%" c) as [<-|_]; [contradiction|].
    destruct (IH Hin) as (l & r & ->). exists (String c l), r. reflexivity.
  - discriminate Hin.
  - rewrite render_i. exists "", (render t). reflexivity.
  - rewrite render_n. destruct IH as (l & r & ->); [exact Hin|].
    exists (name +:+ l), r. rewrite app_assoc_string. reflexivity.
  - rewrite render_d. destruct IH as (l & r & ->); [exact Hin|].
    exists (domain +:+ l), r. rewrite app_assoc_string. reflexivity.
  - rewrite render_literal by assumption.
    assert (Hin' : strings.Contains (String d t) "%i" = true).
    { cbn [strings.Contains strings.HasPrefix] in Hin |- *.
      destruct (Ascii.eqb_spec "i" d) as [<-|_]; [contradiction|].
      simpl in Hin. exact Hin. }
    destruct (IH Hin') as (l & r & ->). exists (String "%" l), r. reflexivity.
Qed.

End RenderFacts.

(** ** Shapes of strings *)

Section ShapeFacts.

Import shape.

Variable p : ascii -> bool.

Lemma allOf_app x y : design.allOf p (x +:+ y) = design.allOf p x && design.allOf p y.
Proof.
  induction x as [|c x IH]; [reflexivity|].
  rewrite app_cons. simpl. rewrite IH. apply andb_assoc.
Qed.

Lemma firstIs_app x y : x <> "" -> firstIs p (x +:+ y) = firstIs p x.
Proof. destruct x; [contradiction | reflexivity]. Qed.

Lemma lastIs_cons c y : y <> "" -> lastIs p (String c y) = lastIs p y.
Proof. destruct y; [contradiction | reflexivity]. Qed.

Lemma lastIs_app x y : y <> "" -> lastIs p (x +:+ y) = lastIs p y.
Proof.
  intros Hy. induction x as [|c x IH]; [reflexivity|].
  rewrite app_cons, lastIs_cons; [exact IH|].
  destruct x; [exact Hy | rewrite app_cons; discriminate].
Qed.

Lemma firstIs_nonempty s : firstIs p s = true -> s <> "".
Proof. destruct s; [discriminate | discriminate]. Qed.

(** Every string but the empty one ends in a byte. *)
Lemma string_snoc s : s <> "" -> exists front last, s = front +:+ String last "".
Proof.
  induction s as [|c s IH]; [contradiction|]. intros _.
  destruct s as [|d s].
  - exists "", c. reflexivity.
  - destruct IH as (front & last & ->); [discriminate|].
    exists (String c front), last. reflexivity.
Qed.

End ShapeFacts.

Section NameFacts.

Import shape keystone.

Lemma alnum_inner c : regexp.inClass alnum c = true -> regexp.inClass inner c = true.
Proof.
  unfold regexp.inClass, alnum, inner. cbn [existsb].
  destruct (regexp.inRange c ("a", "z")%char), (regexp.inRange c ("A", "Z")%char),
    (regexp.inRange c ("0", "9")%char); simpl; intros H; try reflexivity; discriminate.
Qed.

(** The well-formed names by their shape. *)
Lemma wellFormedName_shape s :
  design.wellFormedName s <->
  2 <= String.length s
  /\ firstIs (regexp.inClass alnum) s = true
  /\ lastIs (regexp.inClass alnum) s = true
  /\ design.allOf (regexp.inClass inner) s = true.
Proof.
  split.
  - intros (first & middle & last & -> & Hf & Hm & Hl).
    assert (Hne : middle +:+ String last "" <> "").
    { destruct middle; [discriminate | rewrite app_cons; discriminate]. }
    split; [|split; [exact Hf|split]].
    + simpl. rewrite length_app_string. simpl. lia.
    + rewrite lastIs_cons by exact Hne. rewrite lastIs_app by discriminate. exact Hl.
    + cbn [design.allOf]. rewrite allOf_app, Hm, (alnum_inner _ Hf).
      cbn [design.allOf andb]. rewrite (alnum_inner _ Hl). reflexivity.
  - intros (Hlen & Hf & Hl & Hall).
    destruct s as [|first rest]; [discriminate Hf|].
    assert (Hne : rest <> "") by (intros ->; simpl in Hlen; lia).
    destruct (string_snoc rest Hne) as (middle & last & ->).
    exists first, middle, last. split; [reflexivity|]. split; [exact Hf|].
    rewrite lastIs_cons, lastIs_app in Hl by (exact Hne || discriminate).
    cbn [design.allOf] in Hall. rewrite allOf_app in Hall.
    apply andb_true_iff in Hall as [_ Hall]. apply andb_true_iff in Hall as [Hm _].
    split; [exact Hm | exact Hl].
Qed.

Lemma allOf_inner_no_percent v :
  design.allOf (regexp.inClass inner) v = true -> strings.Contains v "%" = false.
Proof.
  induction v as [|c v IH]; [reflexivity|]. cbn [design.allOf].
  intros [Hc Hv]%andb_true_iff. apply Contains_byte_cons.
  split; [apply inner_not_percent, Hc | apply IH, Hv].
Qed.

(** What [validate] has checked when it returns no error. *)
Lemma validate_accepts sc :
  validate sc = None ->
  strings.Contains (NamespaceFormat sc) "%i" = true
  /\ design.wellFormedName (design.render "aa" "aa" "aa" (NamespaceFormat sc))
  /\ checkDataTypes (DataTypesToSync sc) = None.
Proof.
  unfold validate. rewrite testString_render.
  destruct (strings.Contains (NamespaceFormat sc) "%i"); [|discriminate]. simpl.
  destruct (regexp.MatchString re _) eqn:Hm; [|discriminate]. simpl.
  intros Hdt. split; [reflexivity|]. split; [apply re_matches, Hm | exact Hdt].
Qed.

(** A [%] that starts no placeholder is still there in the test string. *)
Lemma stray_percent_rendered id name domain t :
  strayPercent t -> strings.Contains (design.render id name domain t) "%" = true.
Proof.
  unfold strayPercent.
  induction t as [|c t Hc IH| |t IH|t IH|t IH|d t Hdi Hdn Hdd IH] using template_ind;
    intros (l & r & Ht & Hi & Hn & Hd).
  - destruct l; discriminate Ht.
  - rewrite render_other by exact Hc. apply Contains_cons_true, IH.
    destruct l as [|a l]; [rewrite app_empty_l in Ht; injection Ht as -> _; contradiction|].
    rewrite app_cons in Ht. injection Ht as _ ->. exists l, r. auto.
  - reflexivity.
  - rewrite render_i. apply Contains_app_true, IH.
    destruct l as [|a [|b l]].
    + change (String "%" (String "i" t) = String "%" r) in Ht.
      injection Ht as Hr. subst r. simpl in Hi. discriminate Hi.
    + change (String "%" (String "i" t) = String a (String "%" r)) in Ht.
      injection Ht as _ Ht. discriminate Ht.
    + rewrite !app_cons in Ht. injection Ht as _ _ ->. exists l, r. auto.
  - rewrite render_n. apply Contains_app_true, IH.
    destruct l as [|a [|b l]].
    + change (String "%" (String "n" t) = String "%" r) in Ht.
      injection Ht as Hr. subst r. simpl in Hn. discriminate Hn.
    + change (String "%" (String "n" t) = String a (String "%" r)) in Ht.
      injection Ht as _ Ht. discriminate Ht.
    + rewrite !app_cons in Ht. injection Ht as _ _ ->. exists l, r. auto.
  - rewrite render_d. apply Contains_app_true, IH.
    destruct l as [|a [|b l]].
    + change (String "%" (String "d" t) = String "%" r) in Ht.
      injection Ht as Hr. subst r. simpl in Hd. discriminate Hd.
    + change (String "%" (String "d" t) = String a (String "%" r)) in Ht.
      injection Ht as _ Ht. discriminate Ht.
    + rewrite !app_cons in Ht. injection Ht as _ _ ->. exists l, r. auto.
  - rewrite render_literal by assumption. reflexivity.
Qed.

End NameFacts.

(** ** From a checked template to a well-formed name *)

Section RenderNonEmpty.

Variables id name domain : string.

Local Abbreviation render := (design.render id name domain).

Lemma render_nonempty t :
  id <> "" -> name <> "" -> domain <> "" -> t <> "" -> render t <> "".
Proof.
  intros Hi Hn Hd.
  assert (Happ : forall v s, v <> "" -> v +:+ s <> "").
  { intros [|c v] s Hv; [contradiction | rewrite app_cons; discriminate]. }
  induction t as [|c t Hc _| |t _|t _|t _|d t Hdi Hdn Hdd _] using template_ind;
    intros Ht.
  - contradiction.
  - rewrite render_other by exact Hc. discriminate.
  - discriminate.
  - rewrite render_i. apply Happ, Hi.
  - rewrite render_n. apply Happ, Hn.
  - rewrite render_d. apply Happ, Hd.
  - rewrite render_literal by assumption. discriminate.
Qed.

End RenderNonEmpty.

Section WellFormedRendering.

Import shape keystone.

Variables id name domain : string.

Local Abbreviation test := (design.render "aa" "aa" "aa").
Local Abbreviation render := (design.render id name domain).
Local Abbreviation isAlnum := (regexp.inClass alnum).
Local Abbreviation isInner := (regexp.inClass inner).

Hypothesis id_inner : design.allOf isInner id = true.
Hypothesis name_inner : design.allOf isInner name = true.
Hypothesis domain_inner : design.allOf isInner domain = true.

Lemma render_all_inner t :
  design.allOf isInner (test t) = true -> design.allOf isInner (render t) = true.
Proof.
  induction t as [|c t Hc IH| |t IH|t IH|t IH|d t Hdi Hdn Hdd IH] using template_ind.
  - reflexivity.
  - rewrite !render_other by exact Hc. cbn [design.allOf].
    intros [Hc' Ht]%andb_true_iff. rewrite Hc', (IH Ht). reflexivity.
  - discriminate.
  - rewrite !render_i, !allOf_app. intros [_ Ht]%andb_true_iff.
    rewrite id_inner, (IH Ht). reflexivity.
  - rewrite !render_n, !allOf_app. intros [_ Ht]%andb_true_iff.
    rewrite name_inner, (IH Ht). reflexivity.
  - rewrite !render_d, !allOf_app. intros [_ Ht]%andb_true_iff.
    rewrite domain_inner, (IH Ht). reflexivity.
  - rewrite (render_literal "aa" "aa" "aa") by assumption. discriminate.
Qed.

Hypothesis id_first : firstIs isAlnum id = true.
Hypothesis name_first : firstIs isAlnum name = true.
Hypothesis domain_first : firstIs isAlnum domain = true.

Lemma render_first t :
  firstIs isAlnum (test t) = true -> firstIs isAlnum (render t) = true.
Proof.
  induction t as [|c t Hc _| |t _|t _|t _|d t Hdi Hdn Hdd _] using template_ind.
  - discriminate.
  - rewrite !render_other by exact Hc. exact (fun H => H).
  - exact (fun H => H).
  - intros _. rewrite render_i, firstIs_app by (eapply firstIs_nonempty, id_first).
    exact id_first.
  - intros _. rewrite render_n, firstIs_app by (eapply firstIs_nonempty, name_first).
    exact name_first.
  - intros _. rewrite render_d, firstIs_app by (eapply firstIs_nonempty, domain_first).
    exact domain_first.
  - rewrite !render_literal by assumption. exact (fun H => H).
Qed.

Hypothesis id_last : lastIs isAlnum id = true.
Hypothesis name_last : lastIs isAlnum name = true.
Hypothesis domain_last : lastIs isAlnum domain = true.

Lemma render_last t :
  lastIs isAlnum (test t) = true -> lastIs isAlnum (render t) = true.
Proof.
  assert (Hne : forall t, t <> "" -> render t <> "").
  { intros u. apply render_nonempty; eapply firstIs_nonempty; eassumption. }
  assert (Hte : forall t, t <> "" -> test t <> "").
  { intros u. apply render_nonempty; discriminate. }
  assert (Hvalue : forall v t,
            lastIs isAlnum v = true ->
            (lastIs isAlnum (test t) = true -> lastIs isAlnum (render t) = true) ->
            lastIs isAlnum ("aa" +:+ test t) = true ->
            lastIs isAlnum (v +:+ render t) = true).
  { intros v u Hv IH. destruct u as [|c u].
    - intros _. change (render "") with "". rewrite app_empty_r. exact Hv.
    - rewrite !lastIs_app by (apply Hne || apply Hte; discriminate). exact IH. }
  induction t as [|c t Hc IH| |t IH|t IH|t IH|d t Hdi Hdn Hdd IH] using template_ind.
  - discriminate.
  - rewrite !render_other by exact Hc. destruct t as [|c' t]; [exact (fun H => H)|].
    rewrite !lastIs_cons by (apply Hne || apply Hte; discriminate). exact IH.
  - exact (fun H => H).
  - rewrite !render_i. apply Hvalue; assumption.
  - rewrite !render_n. apply Hvalue; assumption.
  - rewrite !render_d. apply Hvalue; assumption.
  - rewrite !render_literal by assumption.
    rewrite !lastIs_cons by (apply Hne || apply Hte; discriminate). exact IH.
Qed.

End WellFormedRendering.

(** ** [keystone]: what a checked configuration guarantees *)

Section KeystoneGuarantees.

Import shape keystone.

Lemma label_parts v :
  label v = true ->
  firstIs (regexp.inClass alnum) v = true
  /\ lastIs (regexp.inClass alnum) v = true
  /\ design.allOf (regexp.inClass inner) v = true.
Proof.
  unfold label. intros [[Hf Hl]%andb_true_iff Ha]%andb_true_iff. auto.
Qed.

(** X1.  With a configuration that [validate] accepts, an id of at least two
    and at most 63 bytes, and id, name and domain that are alphanumeric at
    both ends and made of alphanumerics, [-], [_] and [.], the name that
    [formatNamespaceName] returns matches the pattern of [validate] and is
    at most 63 bytes long. *)
Theorem formatNamespaceName_well_formed (sc : syncConfig) (id name domain : string) :
  validate sc = None ->
  label id = true -> label name = true -> label domain = true ->
  2 <= String.length id <= 63 ->
  regexp.MatchString re (fst (formatNamespaceName sc id name domain)) = true
  /\ String.length (fst (formatNamespaceName sc id name domain)) <= 63.
Proof.
  intros Hv (Hif & Hil & Hia)%label_parts (Hnf & Hnl & Hna)%label_parts
    (Hdf & Hdl & Hda)%label_parts [Hlen2 Hlen63].
  destruct (validate_accepts sc Hv) as (Hi & Hwf & _).
  assert (Hs : substituted sc id name domain
               = design.render id name domain (NamespaceFormat sc)).
  { unfold substituted. apply chained_is_render.
    - apply allOf_inner_no_percent, Hia.
    - apply allOf_inner_no_percent, Hna.
    - left. apply validate_no_double_percent, Hv. }
  unfold formatNamespaceName. rewrite Hs.
  destruct (Nat.ltb_spec 63 (String.length
              (design.render id name domain (NamespaceFormat sc)))) as [Hlong|Hshort];
    cbn [fst].
  - split; [|exact Hlen63]. apply re_matches, wellFormedName_shape. auto.
  - split; [|exact Hshort]. apply re_matches, wellFormedName_shape.
    apply wellFormedName_shape in Hwf as (_ & Htf & Htl & Hta).
    split; [|split; [|split]].
    + destruct (render_holds_id id name domain _ Hi) as (l & r & ->).
      rewrite !length_app_string. lia.
    + apply render_first; assumption.
    + apply render_last; assumption.
    + apply render_all_inner; assumption.
Qed.

Lemma formatNamespaceName_well_formed_witness :
  regexp.MatchString re
    (fst (formatNamespaceName
            {| DataTypesToSync := ["projects"];
               NamespaceFormat := "%d.%n-%i";
               ProjectBlackList := [] |}
            "0af1" "web" "default")) = true
  /\ String.length
       (fst (formatNamespaceName
               {| DataTypesToSync := ["projects"];
                  NamespaceFormat := "%d.%n-%i";
                  ProjectBlackList := [] |}
               "0af1" "web" "default")) <= 63.
Proof.
  apply (formatNamespaceName_well_formed
           {| DataTypesToSync := ["projects"];
              NamespaceFormat := "%d.%n-%i";
              ProjectBlackList := [] |}
           "0af1" "web" "default");
    try reflexivity.
  simpl. lia.
Defined.

(** X2.  The namespace name holds the project id: with a configuration
    that [validate] accepts and an id and a name without [%], what
    [formatNamespaceName] returns has the id as a substring. *)
Theorem formatNamespaceName_holds_id (sc : syncConfig) (id name domain : string) :
  validate sc = None ->
  strings.Contains id "%" = false ->
  strings.Contains name "%" = false ->
  exists l r, fst (formatNamespaceName sc id name domain) = l +:+ id +:+ r.
Proof.
  intros Hv Hid Hname.
  destruct (validate_accepts sc Hv) as (Hi & _ & _).
  unfold formatNamespaceName.
  destruct (63 <? String.length (substituted sc id name domain)); cbn [fst].
  - exists "", "". rewrite app_empty_l, app_empty_r. reflexivity.
  - unfold substituted. rewrite chained_is_render.
    + apply render_holds_id, Hi.
    + exact Hid.
    + exact Hname.
    + left. apply validate_no_double_percent, Hv.
Qed.

Lemma formatNamespaceName_holds_id_witness :
  exists l r,
    fst (formatNamespaceName
           {| DataTypesToSync := ["projects"];
              NamespaceFormat := "ks-%i-%n";
              ProjectBlackList := [] |}
           "0af1" "web" "default")
    = l +:+ "0af1" +:+ r.
Proof.
  apply (formatNamespaceName_holds_id
           {| DataTypesToSync := ["projects"];
              NamespaceFormat := "ks-%i-%n";
              ProjectBlackList := [] |}
           "0af1" "web" "default"); reflexivity.
Defined.

(** X3.  A template with a [%] that starts no placeholder (one followed by
    neither [i], [n] nor [d], or the last byte) is never accepted:
    [validate] fails on the pattern when the template has [%i], and on the
    missing [%i] otherwise. *)
Theorem validate_rejects_stray_percent (sc : syncConfig) :
  strayPercent (NamespaceFormat sc) ->
  validate sc
  = if strings.Contains (NamespaceFormat sc) "%i"
    then Some errBadName
    else Some errNoProjectID.
Proof.
  intros Hstray. unfold validate. rewrite testString_render.
  destruct (strings.Contains (NamespaceFormat sc) "%i"); [|reflexivity]. cbn [negb].
  destruct (regexp.MatchString re _) eqn:Hm; [|reflexivity]. exfalso.
  apply re_matches, wellFormedName_no_percent in Hm.
  rewrite (stray_percent_rendered "aa" "aa" "aa" _ Hstray) in Hm. discriminate.
Qed.

Lemma validate_rejects_stray_percent_witness :
  validate {| DataTypesToSync := ["projects"];
              NamespaceFormat := "%i-100%";
              ProjectBlackList := [] |}
  = Some errBadName.
Proof.
  apply (validate_rejects_stray_percent
           {| DataTypesToSync := ["projects"];
              NamespaceFormat := "%i-100%";
              ProjectBlackList := [] |}).
  exists "%i-100", "". repeat split.
Defined.

(** X4.  [newSyncConfigFromFile] returns a configuration or an error, never
    both and never neither.  An error of the file read comes back as it
    is, with one error record and without the decoder being asked; an
    error of the decoder likewise; and nothing is logged on success. *)
Theorem newSyncConfigFromFile_errors
    (ReadFile : string -> string + error) (parse : string -> yaml.document + error)
    (path : string) :
  (forall err,
      ReadFile path = inr err ->
      newSyncConfigFromFile ReadFile parse path
      = ((None, Some err),
         [glog.Entry glog.ERROR ("yamlFile get err   #" +:+ Error err +:+ " ")]))
  /\ (forall yamlFile err,
        ReadFile path = inl yamlFile ->
        Unmarshal parse yamlFile newSyncConfig = inr err ->
        newSyncConfigFromFile ReadFile parse path
        = ((None, Some err), [glog.Entry glog.ERROR ("Unmarshal: " +:+ Error err)]))
  /\ ((exists sc, newSyncConfigFromFile ReadFile parse path = ((Some sc, None), []))
      \/ (exists err msg,
            newSyncConfigFromFile ReadFile parse path
            = ((None, Some err), [glog.Entry glog.ERROR msg]))).
Proof.
  unfold newSyncConfigFromFile. split; [|split].
  - intros err ->. reflexivity.
  - intros yamlFile err -> ->. reflexivity.
  - destruct (ReadFile path) as [yamlFile|err].
    + destruct (Unmarshal parse yamlFile newSyncConfig) as [sc|err].
      * left. exists sc. reflexivity.
      * right. eexists _, _. reflexivity.
    + right. eexists _, _. reflexivity.
Qed.

Lemma newSyncConfigFromFile_errors_witness :
  newSyncConfigFromFile
    (fun _ => inr (PathError "open" "/etc/sync.yaml" "no such file or directory"))
    (fun _ => inl []) "/etc/sync.yaml"
  = ((None, Some (PathError "open" "/etc/sync.yaml" "no such file or directory")),
     [glog.Entry glog.ERROR
        "yamlFile get err   #open /etc/sync.yaml: no such file or directory "]).
Proof.
  apply (proj1 (newSyncConfigFromFile_errors
                  (fun _ => inr (PathError "open" "/etc/sync.yaml"
                                   "no such file or directory"))
                  (fun _ => inl []) "/etc/sync.yaml")).
  reflexivity.
Defined.

Lemma Replace_absent x b new :
  strings.Contains x "%" = false ->
  strings.Replace x (String "%" (String b "")) new = x.
Proof.
  intros Hx. rewrite <- (app_empty_r x) at 1.
  rewrite Replace_through by exact Hx.
  rewrite Replace_empty. apply app_empty_r.
Qed.

(** X9.  With the default configuration the namespace name is the project
    id itself, whatever the name and the domain and however long the id,
    as long as the id holds no [%]. *)
Theorem formatNamespaceName_default (id name domain : string) :
  strings.Contains id "%" = false ->
  fst (formatNamespaceName newSyncConfig id name domain) = id.
Proof.
  intros Hid.
  assert (Hs : substituted newSyncConfig id name domain = id).
  { unfold substituted. cbn [NamespaceFormat newSyncConfig].
    rewrite (Replace2_hit "%" "i" "" id), Replace_empty, app_empty_r.
    rewrite (Replace_absent id "n" name Hid). apply Replace_absent, Hid. }
  unfold formatNamespaceName. rewrite Hs.
  destruct (63 <? String.length id); reflexivity.
Qed.

Lemma formatNamespaceName_default_witness :
  fst (formatNamespaceName newSyncConfig "0af1" "%i%n%d" "default") = "0af1".
Proof. apply (formatNamespaceName_default "0af1" "%i%n%d" "default"). reflexivity. Defined.

End KeystoneGuarantees.

(** ** [sharebackends]: what a run of [grantAccessCephx] guarantees *)

Section AccessGuarantees.

Import gophercloud sharebackends.

Lemma classify_Ready answer r :
  design.classify answer = design.Ready r ->
  answer = inl [r] /\ shares.AccessKey r <> "".
Proof.
  destruct answer as [[|r1 [|r2 rest]]|e]; simpl; try discriminate.
  destruct (String.eqb_spec (shares.AccessKey r1) "") as [|Hkey]; [discriminate|].
  intros [= <-]. split; [reflexivity | exact Hkey].
Qed.

(** A wait that ends without error ends on a poll that gave one record
    with a key, and that record is what the captured variable holds. *)
Lemma WaitFor_loop_success args w budget n : forall acc s s' d,
  budget - elapsed acc <= n ->
  WaitFor_loop budget (awaitAccessKey args) acc s w = ((None, s'), d) ->
  shares.AccessKey s' <> ""
  /\ exists w',
       snd (listAccessRights (Client args) w' (shares.ID (Share args))) = inl [s'].
Proof.
  induction n as [|n IH]; intros acc s s' d Hn; rewrite WaitFor_loop_turn;
    destruct (lt_dec (elapsed acc) budget) as [Hlt|Hge];
    try discriminate; [lia|].
  rewrite poll_awaitAccessKey. cbv zeta.
  destruct (design.classify _) eqn:Hc; try discriminate.
  - apply IH. simpl. lia.
  - intros [= <- _]. apply classify_Ready in Hc as [Hanswer Hkey].
    split; [exact Hkey|]. eexists. exact Hanswer.
Qed.

(** The polls of a wait: one request per round, for the share, and no
    more rounds than the budget has seconds. *)
Lemma WaitFor_loop_trace args w budget n : forall acc s m,
  budget - elapsed acc <= n ->
  issued acc = replicate m (shares.ListAccessRightsRequest (shares.ID (Share args))) ->
  m <= elapsed acc -> m <= budget ->
  exists m',
    m' <= budget
    /\ issued (snd (WaitFor_loop budget (awaitAccessKey args) acc s w))
       = replicate m' (shares.ListAccessRightsRequest (shares.ID (Share args))).
Proof.
  induction n as [|n IH]; intros acc s m Hn Hacc Hm Hb; rewrite WaitFor_loop_turn;
    destruct (lt_dec (elapsed acc) budget) as [Hlt|Hge];
    try (exists m; split; [exact Hb | exact Hacc]); [lia|].
  rewrite poll_awaitAccessKey. cbv zeta.
  assert (Hnext : forall dt,
            issued (andThen (andThen acc sleep)
                      {| elapsed := dt;
                         issued := [shares.ListAccessRightsRequest
                                      (shares.ID (Share args))] |})
            = replicate (S m)
                (shares.ListAccessRightsRequest (shares.ID (Share args)))).
  { intros dt. cbn [andThen issued sleep]. rewrite Hacc, app_nil_r.
    symmetry. apply replicate_S_end. }
  destruct (design.classify _);
    try (exists (S m); split; [lia | apply Hnext]).
  apply (IH _ _ (S m)); [simpl; lia | apply Hnext | simpl; lia | lia].
Qed.

(** X5.  Secret names are one-to-one in the share id: two shares never
    share a secret name. *)
Theorem getSecretName_injective (shareID1 shareID2 : string) :
  getSecretName shareID1 = getSecretName shareID2 -> shareID1 = shareID2.
Proof. unfold getSecretName. apply (inj (String.app "manila-")). Qed.

Lemma getSecretName_injective_witness : "5d0e" = "5d0e".
Proof. apply (getSecretName_injective "5d0e" "5d0e"). reflexivity. Defined.

(** X6.  Whenever [grantAccessCephx] returns no error, the pointer it
    returns is not nil, the access right it points to has a non-empty
    access key, and that access right is the single record the endpoint
    gave in answer to a poll for the share. *)
Theorem grantAccessCephx_success (args : GrantAccessArgs) (w : World)
    (pointer : option shares.AccessRight) (d : Delta) :
  grantAccessCephx args w = ((pointer, None), d) ->
  exists accessRight w',
    pointer = Some accessRight
    /\ shares.AccessKey accessRight <> ""
    /\ snd (listAccessRights (Client args) w' (shares.ID (Share args)))
       = inl [accessRight].
Proof.
  destruct (grantAccess (Client args) w (shares.ID (Share args))
              {| shares.optAccessType := "cephx";
                 shares.optAccessTo := shares.Name (Share args);
                 shares.optAccessLevel := "rw" |}) as [dt [granted|err]] eqn:Hg.
  - rewrite (grantAccessCephx_granted args w dt granted Hg). cbv zeta.
    destruct (WaitFor 120 _ _ _) as [[err accessRight] d'] eqn:Hwait.
    intros [= <- -> _]. unfold WaitFor in Hwait.
    destruct (WaitFor_loop_success args _ 120 120 _ _ _ _ ltac:(lia) Hwait)
      as [Hkey [w' Hanswer]].
    exists accessRight, w'. auto.
  - rewrite (grant_failure_run args w dt err Hg). discriminate.
Qed.

Lemma grantAccessCephx_success_witness :
  exists accessRight w',
    Some (scripted.accessRight "AQD5") = Some accessRight
    /\ shares.AccessKey accessRight <> ""
    /\ snd (listAccessRights
              (scripted.client (1, inl (scripted.accessRight ""))
                 [(0, inl []); (2, inl [scripted.accessRight "AQD5"])] (0, inl []))
              w' "5d0e")
       = inl [accessRight].
Proof.
  eapply (grantAccessCephx_success
            (scripted.args
               (scripted.client (1, inl (scripted.accessRight ""))
                  [(0, inl []); (2, inl [scripted.accessRight "AQD5"])] (0, inl [])))
            scripted.start).
  reflexivity.
Defined.

(** X7.  The requests of a run of [grantAccessCephx] are one grant request
    (access type [cephx], level [rw], access to the share's name) followed
    by polls of the access rights of that same share, at most 120 of
    them, and nothing else. *)
Theorem grantAccessCephx_requests (args : GrantAccessArgs) (w : World) :
  exists polls,
    polls <= 120
    /\ issued (snd (grantAccessCephx args w))
       = shares.GrantAccessRequest (shares.ID (Share args))
           {| shares.optAccessType := "cephx";
              shares.optAccessTo := shares.Name (Share args);
              shares.optAccessLevel := "rw" |}
         :: replicate polls (shares.ListAccessRightsRequest (shares.ID (Share args))).
Proof.
  destruct (grantAccess (Client args) w (shares.ID (Share args))
              {| shares.optAccessType := "cephx";
                 shares.optAccessTo := shares.Name (Share args);
                 shares.optAccessLevel := "rw" |}) as [dt [granted|err]] eqn:Hg.
  - rewrite (grantAccessCephx_granted args w dt granted Hg). cbv zeta.
    destruct (WaitFor_loop_trace args
                (after w {| elapsed := dt;
                            issued := [shares.GrantAccessRequest (shares.ID (Share args))
                                         {| shares.optAccessType := "cephx";
                                            shares.optAccessTo := shares.Name (Share args);
                                            shares.optAccessLevel := "rw" |}] |})
                120 120 nothing shares.zeroAccessRight 0)
      as (polls & Hle & Htrace); [simpl; lia | reflexivity | lia | lia |].
    exists polls. split; [exact Hle|].
    unfold WaitFor. destruct (WaitFor_loop 120 _ _ _ _) as [[err accessRight] d'].
    cbn [snd] in Htrace |- *. simpl. rewrite Htrace. reflexivity.
  - rewrite (grant_failure_run args w dt err Hg). exists 0. split; [lia | reflexivity].
Qed.

(** X8.  If the grant goes through and the endpoint never has the key
    ready (every poll gives no record, or one record with an empty key),
    [grantAccessCephx] ends with the timeout error and a pointer to the
    zero access right, and not before 120 seconds of waiting have passed
    since the grant. *)
Theorem grantAccessCephx_never_ready (args : GrantAccessArgs) (w : World)
    (dt : nat) (granted : shares.AccessRight) :
  grantAccess (Client args) w (shares.ID (Share args))
    {| shares.optAccessType := "cephx";
       shares.optAccessTo := shares.Name (Share args);
       shares.optAccessLevel := "rw" |}
  = (dt, inl granted) ->
  (forall w',
      design.notYetReady
        (snd (listAccessRights (Client args) w' (shares.ID (Share args))))) ->
  fst (grantAccessCephx args w) = (Some shares.zeroAccessRight, Some ErrTimeout)
  /\ dt + 120 <= elapsed (snd (grantAccessCephx args w)).
Proof.
  intros Hg Hnever.
  rewrite (grantAccessCephx_granted args w dt granted Hg). cbv zeta.
  destruct (await_is_decided args
              (after w {| elapsed := dt;
                          issued := [shares.GrantAccessRequest (shares.ID (Share args))
                                       {| shares.optAccessType := "cephx";
                                          shares.optAccessTo := shares.Name (Share args);
                                          shares.optAccessLevel := "rw" |}] |}))
    as (k & _ & Hp & [Hout|[_ Hready]]).
  - destruct (WaitFor_outcome args _ 120 k Hp) as [Htimeout _].
    rewrite (Htimeout Hout). cbn [fst snd]. split; [reflexivity|]. simpl. lia.
  - exfalso. apply Hready. apply Hnever.
Qed.

Lemma grantAccessCephx_never_ready_witness :
  fst (grantAccessCephx
         (scripted.args
            (scripted.client (3, inl (scripted.accessRight "")) []
               (0, inl [scripted.accessRight ""])))
         scripted.start)
  = (Some shares.zeroAccessRight, Some ErrTimeout)
  /\ 3 + 120
     <= elapsed (snd (grantAccessCephx
                        (scripted.args
                           (scripted.client (3, inl (scripted.accessRight "")) []
                              (0, inl [scripted.accessRight ""])))
                        scripted.start)).
Proof.
  apply (grantAccessCephx_never_ready
           (scripted.args
              (scripted.client (3, inl (scripted.accessRight "")) []
                 (0, inl [scripted.accessRight ""])))
           scripted.start 3 (scripted.accessRight "")).
  - reflexivity.
  - intros w'. right. exists (scripted.accessRight "").
    split; [|reflexivity]. simpl. destruct (scripted.polls _); reflexivity.
Defined.

End AccessGuarantees.
